(** * BlackRoad Notification Hub: a shallow embedding of [src/module.py]

    The definitions follow the layout of the Python module: enumerations and
    data classes, the template renderer, the storage layer (SQLite tables as
    lists of rows in rowid order) and the core API; then come the vocabulary
    of the specification and the theorems.

    Conventions of the embedding.
    - A Python [str] is a [string]; its characters are code points below 256.
    - [time.time()] readings are integers (microseconds since the epoch), so
      that [round(latency_ms, 3)] is the exact difference of two readings,
      kept in thousandths of a millisecond.
    - Python exceptions are values of [exn]; a computation that can raise
      returns a [result]; code that reads the clock or the database runs in
      the monad [M] over [World]; the template functions run in [MH] over
      [Hub], the same database with its [templates] table.
    - [ORDER BY] is a stable merge sort of the selected rows.
    - JSON text ([json.dumps] / [json.loads] of the metadata mapping) is kept
      as the text itself. *)

From Stdlib Require Import ZArith Lia SpecFloat Ascii String.
From stdpp Require Import base option list strings gmap sorting.

Set Warnings "-clear-no-such-hyp".

Local Open Scope string_scope.
Local Open Scope Z_scope.
Local Open Scope list_scope.

(* ------------------------------------------------------------------------ *)
(** * Exceptions and results *)

Inductive exn : Type :=
  | ValueError
  | KeyError
  | AttributeError
  | TypeError
  | ZeroDivisionError.

Inductive result (A : Type) : Type :=
  | Ok (a : A)
  | Raise (e : exn).
Arguments Ok {A} a.
Arguments Raise {A} e.

(* ------------------------------------------------------------------------ *)
(** * Enums and data classes *)

Inductive Channel : Type := EMAIL | SLACK | WEBHOOK | PUSH.

Definition Channel_value (c : Channel) : string :=
  match c with
  | EMAIL => "email"
  | SLACK => "slack"
  | WEBHOOK => "webhook"
  | PUSH => "push"
  end.

(** [Channel(s)] on a plain string: lookup by value, [ValueError] otherwise. *)
Definition Channel_of_value (s : string) : result Channel :=
  if decide (s = "email") then Ok EMAIL
  else if decide (s = "slack") then Ok SLACK
  else if decide (s = "webhook") then Ok WEBHOOK
  else if decide (s = "push") then Ok PUSH
  else Raise ValueError.

Inductive NotificationStatus : Type := PENDING | SENT | FAILED | READ.

Definition NotificationStatus_value (s : NotificationStatus) : string :=
  match s with
  | PENDING => "pending"
  | SENT => "sent"
  | FAILED => "failed"
  | READ => "read"
  end.

Definition NotificationStatus_of_value (s : string) : result NotificationStatus :=
  if decide (s = "pending") then Ok PENDING
  else if decide (s = "sent") then Ok SENT
  else if decide (s = "failed") then Ok FAILED
  else if decide (s = "read") then Ok READ
  else Raise ValueError.

(** The [channel] attribute of a [Notification] is annotated [Channel], but
    [send_notification] and [to_dict] test it with [isinstance] and accept a
    plain string as well: both shapes are values of the field. *)
Inductive channel_field : Type :=
  | ChanMember (c : Channel)
  | ChanStr (s : string).

(** [x.value if isinstance(x, Channel) else x] *)
Definition channel_text (x : channel_field) : string :=
  match x with
  | ChanMember c => Channel_value c
  | ChanStr s => s
  end.

(** [Channel(x if isinstance(x, str) else x.value)]: a member is returned as
    it is, a plain string is looked up by value. *)
Definition Channel_call (x : channel_field) : result Channel :=
  match x with
  | ChanMember c => Ok c
  | ChanStr s => Channel_of_value s
  end.

Record Notification : Type := mkNotification {
  n_id : string;
  n_type : string;
  n_recipient : string;
  n_subject : string;
  n_body : string;
  n_channel : channel_field;
  n_status : NotificationStatus;
  n_sent_at : option Z;
  n_created_at : Z;
  n_metadata : string;
  n_retry_count : Z }.

(* ------------------------------------------------------------------------ *)
(** * Template rendering *)

(** The values a rendering context holds.  [isinstance(value, dict)] tells a
    plain dict, read with [value[part]], from any other object, read with
    [getattr(value, part)]; for both the model carries what [str(value)]
    returns and the entries a lookup can find, first match first. *)
#[warnings="-register-all"] Inductive value : Type :=
  | VDict (text : string) (items : list (string * value))
  | VObj (text : string) (attrs : list (string * value)).

Definition py_str (v : value) : string :=
  match v with
  | VDict text _ => text
  | VObj text _ => text
  end.

Fixpoint assoc (key : string) (entries : list (string * value)) : option value :=
  match entries with
  | [] => None
  | (k, v) :: rest => if decide (k = key) then Some v else assoc key rest
  end.

(** [value[part]] on a dict *)
Definition getitem (v : list (string * value)) (part : string) : result value :=
  match assoc part v with
  | Some x => Ok x
  | None => Raise KeyError
  end.

(** [getattr(value, part)] on any other object *)
Definition getattr (v : list (string * value)) (part : string) : result value :=
  match assoc part v with
  | Some x => Ok x
  | None => Raise AttributeError
  end.

(** Characters for which [str.isspace] holds, among code points below 256. *)
Definition is_space (c : ascii) : bool :=
  let n := N_of_ascii c in
  ((9 <=? n) && (n <=? 13) || (28 <=? n) && (n <=? 32) || (n =? 133) || (n =? 160))%N.

Fixpoint lstrip (s : string) : string :=
  match s with
  | String c s' => if is_space c then lstrip s' else s
  | EmptyString => EmptyString
  end.

Fixpoint rstrip (s : string) : string :=
  match s with
  | String c s' =>
    match rstrip s' with
    | EmptyString => if is_space c then EmptyString else String c EmptyString
    | t => String c t
    end
  | EmptyString => EmptyString
  end.

(** [s.strip()] *)
Definition strip (s : string) : string := rstrip (lstrip s).

(** [s.split(".")]: never empty; the empty string gives one empty part. *)
Fixpoint split_dot (s : string) : list string :=
  match s with
  | EmptyString => [EmptyString]
  | String c s' =>
    if Ascii.eqb c "." then EmptyString :: split_dot s'
    else match split_dot s' with
         | part :: parts => String c part :: parts
         | [] => [String c EmptyString]
         end
  end.

(** A match of [r"\{\{(.+?)\}\}"]: [group(0)] is the whole placeholder,
    [group(1)] the text between the braces. *)
Record re_match : Type := mkMatch { group0 : string; group1 : string }.

Definition is_newline (c : ascii) : bool := Ascii.eqb c "010".

(** [s] with its first two characters removed when they are [a] and [b]. *)
Definition after2 (a b : ascii) (s : string) : option string :=
  match s with
  | String x (String y rest) =>
    if Ascii.eqb x a && Ascii.eqb y b then Some rest else None
  | _ => None
  end.

(** The part [(.+?)\}\}] of the pattern, tried on the text that follows an
    opening [{{]: the shortest non-empty run of characters other than a
    newline that is followed by [}}].  The result is that run and the text
    after the closing braces. *)
Fixpoint find_close (u : string) : option (string * string) :=
  match u with
  | EmptyString => None
  | String c u' =>
    if is_newline c then None
    else match after2 "}" "}" u' with
         | Some rest => Some (String c EmptyString, rest)
         | None =>
           match find_close u' with
           | Some (inner, rest) => Some (String c inner, rest)
           | None => None
           end
         end
  end.

(** The pattern tried at the start of [s]. *)
Definition match_here (s : string) : option (re_match * string) :=
  match after2 "{" "{" s with
  | Some u =>
    match find_close u with
    | Some (inner, rest) => Some (mkMatch ("{{" +:+ inner +:+ "}}") inner, rest)
    | None => None
    end
  | None => None
  end.

(** [re.sub(pattern, repl, s)] for a callable [repl]: matches are found from
    left to right and do not overlap, text between them is copied, and an
    exception raised by [repl] propagates.  [fuel] bounds the number of
    steps; every step consumes at least one character. *)
Fixpoint re_sub_from (fuel : nat) (repl : re_match → result string) (s : string)
    : result string :=
  match fuel with
  | O => Ok s
  | S fuel' =>
    match s with
    | EmptyString => Ok EmptyString
    | String c s' =>
      match match_here s with
      | Some (m, rest) =>
        match repl m with
        | Raise e => Raise e
        | Ok t =>
          match re_sub_from fuel' repl rest with
          | Raise e => Raise e
          | Ok out => Ok (t +:+ out)
          end
        end
      | None =>
        match re_sub_from fuel' repl s' with
        | Raise e => Raise e
        | Ok out => Ok (String c out)
        end
      end
    end
  end.

Definition re_sub (repl : re_match → result string) (s : string) : result string :=
  re_sub_from (String.length s) repl s.

(** The [for part in parts] loop of [replacer]. *)
Fixpoint resolve (parts : list string) (v : value) : result value :=
  match parts with
  | [] => Ok v
  | part :: rest =>
    match (match v with
           | VDict _ items => getitem items part
           | VObj _ attrs => getattr attrs part
           end) with
    | Ok v' => resolve rest v'
    | Raise e => Raise e
    end
  end.

Definition replacer (context : value) (m : re_match) : result string :=
  let key := strip (group1 m) in
  let parts := split_dot key in
  match resolve parts context with
  | Ok v => Ok (py_str v)
  | Raise KeyError | Raise AttributeError | Raise TypeError => Ok (group0 m)
  | Raise e => Raise e
  end.

Definition _simple_render (template : string) (context : value) : result string :=
  re_sub (replacer context) template.

(* ------------------------------------------------------------------------ *)
(** * Storage: the tables of [init_db] *)

(** A row of [notifications]; [channel] and [status] are TEXT columns. *)
Record NotificationRow : Type := mkRow {
  row_id : string;
  row_type : string;
  row_recipient : string;
  row_subject : string;
  row_body : string;
  row_channel : string;
  row_status : string;
  row_sent_at : option Z;
  row_created_at : Z;
  row_metadata : string;
  row_retry_count : Z }.

(** A row of [delivery_log]; [dl_latency_ms] is in thousandths of a
    millisecond. *)
Record DeliveryRow : Type := mkDelivery {
  dl_id : Z;
  dl_notification_id : string;
  dl_channel : string;
  dl_attempt_at : Z;
  dl_success : Z;
  dl_error_msg : option string;
  dl_latency_ms : Z }.

(** The database file and the clock the process reads.  Tables are lists in
    rowid order; [dl_seq] is the AUTOINCREMENT counter of [delivery_log];
    [clock k] is the k-th reading of [time.time()] and [ticks] counts the
    readings made so far. *)
Record World : Type := mkWorld {
  notifications : list NotificationRow;
  delivery_log : list DeliveryRow;
  dl_seq : Z;
  clock : nat → Z;
  ticks : nat }.

(* ------------------------------------------------------------------------ *)
(** * The monad of the core API: state and exceptions *)

Definition M (A : Type) : Type := World → result A * World.

#[global] Instance M_ret : MRet M := λ A a w, (Ok a, w).
#[global] Instance M_bind : MBind M := λ A B f m w,
  match m w with
  | (Ok a, w') => f a w'
  | (Raise e, w') => (Raise e, w')
  end.

Definition lift {A} (r : result A) : M A := λ w, (r, w).
Definition get_world : M World := λ w, (Ok w, w).

(** [try: body except ValueError: handler] *)
Definition try_except_ValueError {A} (body : M A) (handler : M A) : M A := λ w,
  match body w with
  | (Raise ValueError, w') => handler w'
  | r => r
  end.

(** [time.time()] *)
Definition time_time : M Z := λ w,
  (Ok (clock w (ticks w)),
   mkWorld (notifications w) (delivery_log w) (dl_seq w) (clock w) (S (ticks w))).

(** [init_db]: every statement is CREATE ... IF NOT EXISTS; a database that
    was never opened is the one with empty tables, so the call changes
    nothing. *)
Definition init_db : M unit := λ w, (Ok tt, w).

Definition empty_world (clk : nat → Z) : World := mkWorld [] [] 0 clk 0.

(** [INSERT OR REPLACE INTO notifications]: the row with the same primary
    key is deleted and the new row gets the next rowid. *)
Definition insert_or_replace (r : NotificationRow) (tbl : list NotificationRow)
    : list NotificationRow :=
  filter (λ r', row_id r' ≠ row_id r) tbl ++ [r].

Definition exec_insert_or_replace_notification (r : NotificationRow) : M unit := λ w,
  (Ok tt,
   mkWorld (insert_or_replace r (notifications w)) (delivery_log w) (dl_seq w)
           (clock w) (ticks w)).

(** [INSERT INTO delivery_log (notification_id, channel, attempt_at, success,
    error_msg, latency_ms)] *)
Definition exec_insert_delivery_log (notification_id channel : string)
    (attempt_at success : Z) (error_msg : option string) (latency_ms : Z) : M unit := λ w,
  (Ok tt,
   mkWorld (notifications w)
           (delivery_log w ++
              [mkDelivery (dl_seq w + 1) notification_id channel attempt_at
                          success error_msg latency_ms])
           (dl_seq w + 1) (clock w) (ticks w)).

(* ------------------------------------------------------------------------ *)
(** * Core API *)

(** The keyword arguments are evaluated in order, so [Channel(...)] raises
    before [NotificationStatus(...)] is tried.  A metadata mapping is
    represented by the text [json.dumps] gives for it, and the stored
    metadata is taken to be such a text; [row["metadata"] or "{}"] turns an
    empty text into the empty object.  [json.loads] itself is not run here:
    on text that is not JSON it raises, and JSON in another spelling it
    reads into a mapping that [json.dumps] writes differently.  What is
    stated below about the decoded metadata of an arbitrary row is therefore
    stated for [canonical_metadata] text only. *)
Definition _row_to_notification (row : NotificationRow) : result Notification :=
  match Channel_of_value (row_channel row) with
  | Raise e => Raise e
  | Ok channel =>
    match NotificationStatus_of_value (row_status row) with
    | Raise e => Raise e
    | Ok status =>
      Ok (mkNotification (row_id row) (row_type row) (row_recipient row)
            (row_subject row) (row_body row) (ChanMember channel) status
            (row_sent_at row) (row_created_at row)
            (if decide (row_metadata row = EmptyString) then "{}"
             else row_metadata row)
            (row_retry_count row))
    end
  end.

(** The parameter tuple of the INSERT OR REPLACE statement. *)
Definition notification_row (notification : Notification)
    (new_status : NotificationStatus) (sent_at : option Z) : NotificationRow :=
  mkRow (n_id notification) (n_type notification) (n_recipient notification)
        (n_subject notification) (n_body notification)
        (channel_text (n_channel notification))
        (NotificationStatus_value new_status) sent_at
        (n_created_at notification) (n_metadata notification)
        (n_retry_count notification).

(** [notification.status = new_status; notification.sent_at = sent_at] *)
Definition set_status_sent_at (notification : Notification)
    (new_status : NotificationStatus) (sent_at : option Z) : Notification :=
  mkNotification (n_id notification) (n_type notification)
    (n_recipient notification) (n_subject notification) (n_body notification)
    (n_channel notification) new_status sent_at
    (n_created_at notification) (n_metadata notification)
    (n_retry_count notification).

(** Returns the success flag and the notification object as the call leaves
    it. *)
Definition send_notification (notification : Notification) : M (bool * Notification) :=
  _ ← init_db;
  start ← time_time;
  '(success, error_msg) ←
    try_except_ValueError
      (_ ← lift (Channel_call (n_channel notification)); mret (true, None))
      (mret (false, Some ("Unknown channel: " +:+ channel_text (n_channel notification))));
  now ← time_time;
  finish ← time_time;
  let latency_ms := finish - start in
  let new_status := if success : bool then SENT else FAILED in
  let sent_at := if success then Some now else None in
  _ ← exec_insert_or_replace_notification
        (notification_row notification new_status sent_at);
  _ ← exec_insert_delivery_log (n_id notification)
        (channel_text (n_channel notification)) now
        (if success then 1 else 0) error_msg latency_ms;
  mret (success, set_status_sent_at notification new_status sent_at).

(** Dict comprehension [{n.id: send_notification(n, db_path) for n in
    notifications}]: one send per element, in list order, each result stored
    under the element's id. *)
Fixpoint batch_send_from (acc : gmap string bool) (notifications : list Notification)
    : M (gmap string bool) :=
  match notifications with
  | [] => mret acc
  | n :: rest =>
    '(success, _) ← send_notification n;
    batch_send_from (<[n_id n := success]> acc) rest
  end.

Definition batch_send (notifications : list Notification) : M (gmap string bool) :=
  batch_send_from ∅ notifications.

(** [UPDATE notifications SET status = ? WHERE id = ? AND status != ?];
    the result is the cursor's [rowcount], the number of rows the WHERE
    clause selected. *)
Definition update_selects (id other_than : string) (r : NotificationRow) : bool :=
  bool_decide (row_id r = id ∧ row_status r ≠ other_than).

Definition set_row_status (status : string) (r : NotificationRow) : NotificationRow :=
  mkRow (row_id r) (row_type r) (row_recipient r) (row_subject r) (row_body r)
        (row_channel r) status (row_sent_at r) (row_created_at r) (row_metadata r)
        (row_retry_count r).

Definition exec_update_status (status id other_than : string) : M Z := λ w,
  (Ok (Z.of_nat (length (filter (λ r, update_selects id other_than r = true)
                                (notifications w)))),
   mkWorld (map (λ r, if update_selects id other_than r
                      then set_row_status status r else r) (notifications w))
           (delivery_log w) (dl_seq w) (clock w) (ticks w)).

Definition mark_read (notification_id : string) : M bool :=
  _ ← init_db;
  rowcount ← exec_update_status (NotificationStatus_value READ) notification_id
                                (NotificationStatus_value PENDING);
  mret (bool_decide (rowcount > 0)).

(** [SELECT * FROM notifications WHERE id = ?] followed by [fetchone()] *)
Definition select_notification_by_id (id : string) : M (option NotificationRow) := λ w,
  (Ok (head (filter (λ r, row_id r = id) (notifications w))), w).

Definition get_notification (notification_id : string) : M (option Notification) :=
  _ ← init_db;
  row ← select_notification_by_id notification_id;
  match row with
  | Some r => n ← lift (_row_to_notification r); mret (Some n)
  | None => mret None
  end.

(** [SELECT * FROM notifications WHERE status = ?] followed by [fetchall()] *)
Definition select_notifications_by_status (status : string) : M (list NotificationRow) := λ w,
  (Ok (filter (λ r, row_status r = status) (notifications w)), w).

(** List comprehension [[_row_to_notification(r) for r in rows]]: the first
    row that fails to decode raises. *)
Fixpoint rows_to_notifications (rows : list NotificationRow) : result (list Notification) :=
  match rows with
  | [] => Ok []
  | r :: rows' =>
    match _row_to_notification r with
    | Raise e => Raise e
    | Ok n =>
      match rows_to_notifications rows' with
      | Raise e => Raise e
      | Ok ns => Ok (n :: ns)
      end
    end
  end.

Definition bump_retry_count (notif : Notification) : Notification :=
  mkNotification (n_id notif) (n_type notif) (n_recipient notif) (n_subject notif)
    (n_body notif) (n_channel notif) (n_status notif) (n_sent_at notif)
    (n_created_at notif) (n_metadata notif) (n_retry_count notif + 1).

(** The [for notif in notifications] loop of [retry_failed]. *)
Fixpoint retry_loop (notifications : list Notification) (count : Z) : M Z :=
  match notifications with
  | [] => mret count
  | notif :: rest =>
    '(success, _) ← send_notification (bump_retry_count notif);
    retry_loop rest (if success : bool then count + 1 else count)
  end.

Definition retry_failed : M Z :=
  _ ← init_db;
  rows ← select_notifications_by_status (NotificationStatus_value FAILED);
  notifications ← lift (rows_to_notifications rows);
  retry_loop notifications 0.

(** ORDER BY created_at DESC and ORDER BY attempt_at DESC.  SQL leaves the
    order of rows with equal keys open; the sort below fixes one, and
    nothing proved about the results depends on it. *)
Definition created_desc (a b : NotificationRow) : Prop :=
  row_created_at b ≤ row_created_at a.

Definition attempt_desc (a b : DeliveryRow) : Prop :=
  dl_attempt_at b ≤ dl_attempt_at a.

#[global] Instance created_desc_dec : RelDecision created_desc :=
  λ a b, Z_le_dec (row_created_at b) (row_created_at a).

#[global] Instance attempt_desc_dec : RelDecision attempt_desc :=
  λ a b, Z_le_dec (dl_attempt_at b) (dl_attempt_at a).

(** [SELECT * FROM notifications WHERE recipient = ? AND status = ?
    ORDER BY created_at DESC] followed by [fetchall()] *)
Definition select_notifications_by_recipient (recipient status : string)
    : M (list NotificationRow) := λ w,
  (Ok (merge_sort created_desc
         (filter (λ r, row_recipient r = recipient ∧ row_status r = status)
                 (notifications w))), w).

Definition get_unread (recipient : string) : M (list Notification) :=
  _ ← init_db;
  rows ← select_notifications_by_recipient recipient (NotificationStatus_value SENT);
  lift (rows_to_notifications rows).

(** [SELECT * FROM delivery_log WHERE notification_id = ? ORDER BY
    attempt_at DESC]; each [dict(r)] is kept as the row. *)
Definition get_delivery_log (notification_id : string) : M (list DeliveryRow) :=
  _ ← init_db;
  w ← get_world;
  mret (merge_sort attempt_desc
          (filter (λ d, dl_notification_id d = notification_id) (delivery_log w))).

(* ------------------------------------------------------------------------ *)
(** * Python floats and [notification_stats] *)

(** A Python [float] is an IEEE 754 binary64 number. *)
Definition float : Type := spec_float.
Definition prec : Z := 53.
Definition emax : Z := 1024.

(** The exact value of an [int], before any rounding. *)
Definition int_exact (z : Z) : float :=
  match z with
  | Z0 => S754_zero false
  | Zpos p => S754_finite false p 0
  | Zneg p => S754_finite true p 0
  end.

(** [float(z)] *)
Definition float_of_int (z : Z) : float := binary_normalize prec emax z 0 false.

(** [a / b] on two [int]s: the correctly rounded quotient, or
    [ZeroDivisionError]. *)
Definition int_truediv (a b : Z) : result float :=
  if decide (b = 0) then Raise ZeroDivisionError
  else Ok (SFdiv prec emax (int_exact a) (int_exact b)).

(** [x * k] for a [float] [x] and an [int] [k] *)
Definition float_mul_int (x : float) (k : Z) : float :=
  SFmul prec emax x (float_of_int k).

(** [round(x, ndigits)] for [ndigits >= 0]: the decimal with [ndigits]
    fractional digits nearest to the exact value of [x] (ties to the even
    digit), converted back to the nearest float. *)
Definition round_half_even (num den : Z) : Z :=
  let q := num / den in
  let r := num mod den in
  match 2 * r ?= den with
  | Lt => q
  | Gt => q + 1
  | Eq => if Z.even q then q else q + 1
  end.

Definition py_round (x : float) (ndigits : nat) : float :=
  match x with
  | S754_finite s m e =>
    let scale := 10 ^ Z.of_nat ndigits in
    let k := if decide (0 ≤ e) then Z.pos m * scale * 2 ^ e
             else round_half_even (Z.pos m * scale) (2 ^ (- e)) in
    if decide (k = 0) then S754_zero s
    else SFdiv prec emax (int_exact (if s then - k else k)) (int_exact scale)
  | _ => x
  end.

Record Stats : Type := mkStats {
  total_notifications : Z;
  by_status : gmap string Z;
  by_channel : gmap string Z;
  total_delivery_attempts : Z;
  successful_deliveries : Z;
  delivery_success_rate_pct : float;
  filter_channel : option string }.

(** Truth value of an [Optional[str]]: [None] and the empty string are
    false. *)
Definition truthy (channel : option string) : bool :=
  match channel with
  | None => false
  | Some s => bool_decide (s ≠ EmptyString)
  end.

(** [SELECT key, COUNT( * ) ... GROUP BY key] read into a dict *)
Definition group_count {A} (key : A → string) (rows : list A) : gmap string Z :=
  foldr (λ r m, <[key r := default 0 (m !! key r) + 1]> m) ∅ rows.

Definition count_rows {A} (rows : list A) : Z := Z.of_nat (length rows).

Definition notification_stats (channel : option string) : M Stats :=
  _ ← init_db;
  w ← get_world;
  let rows :=
    if truthy channel
    then filter (λ r, Some (row_channel r) = channel) (notifications w)
    else notifications w in
  let total := count_rows rows in
  let status_map := group_count row_status rows in
  let channel_map := group_count row_channel rows in
  let total_attempts :=
    count_rows (if truthy channel
                then filter (λ d, Some (dl_channel d) = channel) (delivery_log w)
                else delivery_log w) in
  let successful :=
    count_rows (if truthy channel
                then filter (λ d, Some (dl_channel d) = channel ∧ dl_success d = 1)
                            (delivery_log w)
                else filter (λ d, dl_success d = 1) (delivery_log w)) in
  delivery_rate ←
    (if decide (total_attempts ≠ 0)
     then q ← lift (int_truediv successful total_attempts);
          mret (py_round (float_mul_int q 100) 2)
     else mret (S754_zero false));
  mret (mkStats total status_map channel_map total_attempts successful
                delivery_rate channel).

(* ------------------------------------------------------------------------ *)
(** * Templates *)

(** A row of [templates]. *)
Record TemplateRow : Type := mkTemplate {
  tpl_name : string;
  tpl_channel : string;
  tpl_subject_template : string;
  tpl_body_template : string;
  tpl_created_at : Z }.

(** The database with its third table. *)
Record Hub : Type := mkHub {
  hub_world : World;
  templates : list TemplateRow }.

Definition MH (A : Type) : Type := Hub → result A * Hub.

#[global] Instance MH_ret : MRet MH := λ A a h, (Ok a, h).
#[global] Instance MH_bind : MBind MH := λ A B f m h,
  match m h with
  | (Ok a, h') => f a h'
  | (Raise e, h') => (Raise e, h')
  end.

(** A computation on the other tables and the clock, run on the hub. *)
Definition lift_world {A} (m : M A) : MH A := λ h,
  let r := m (hub_world h) in (r.1, mkHub r.2 (templates h)).

Definition raise_hub {A} (e : exn) : MH A := λ h, (Raise e, h).

(** [Template.render]: the subject first, then the body. *)
Definition Template_render (t : TemplateRow) (context : value) : result (string * string) :=
  match _simple_render (tpl_subject_template t) context with
  | Raise e => Raise e
  | Ok subject =>
    match _simple_render (tpl_body_template t) context with
    | Raise e => Raise e
    | Ok body => Ok (subject, body)
    end
  end.

(** The dict [template_render] returns. *)
Record Rendered : Type := mkRendered {
  rendered_subject : string;
  rendered_body : string;
  rendered_channel : string }.

(** [SELECT * FROM templates WHERE name = ?] followed by [fetchone()] *)
Definition select_template_by_name (name : string) : MH (option TemplateRow) := λ h,
  (Ok (head (filter (λ t, tpl_name t = name) (templates h))), h).

Definition template_render (template_name : string) (context : value) : MH Rendered :=
  _ ← lift_world init_db;
  row ← select_template_by_name template_name;
  match row with
  | None => raise_hub KeyError
  | Some tmpl =>
    match Template_render tmpl context with
    | Raise e => raise_hub e
    | Ok (subject, body) => mret (mkRendered subject body (tpl_channel tmpl))
    end
  end.

(** [INSERT OR REPLACE INTO templates] *)
Definition insert_or_replace_template (t : TemplateRow) (tbl : list TemplateRow)
    : list TemplateRow :=
  filter (λ t', tpl_name t' ≠ tpl_name t) tbl ++ [t].

Definition exec_insert_or_replace_template (t : TemplateRow) : MH unit := λ h,
  (Ok tt, mkHub (hub_world h) (insert_or_replace_template t (templates h))).

Definition save_template (name channel subject_template body_template : string)
    : MH unit :=
  _ ← lift_world init_db;
  now ← lift_world time_time;
  exec_insert_or_replace_template
    (mkTemplate name channel subject_template body_template now).

(** ORDER BY name: text compares by code points, a prefix before its
    extensions. *)
Definition name_asc (a b : TemplateRow) : Prop := String.le (tpl_name a) (tpl_name b).

#[global] Instance name_asc_dec : RelDecision name_asc :=
  λ a b, String.le_dec (tpl_name a) (tpl_name b).

(** [SELECT * FROM templates ORDER BY name] followed by [fetchall()] *)
Definition select_templates_by_name : MH (list TemplateRow) := λ h,
  (Ok (merge_sort name_asc (templates h)), h).

(** Each [dict(r)] is kept as the row. *)
Definition list_templates : MH (list TemplateRow) :=
  _ ← lift_world init_db;
  select_templates_by_name.

Definition empty_hub (clk : nat → Z) : Hub := mkHub (empty_world clk) [].

(* ------------------------------------------------------------------------ *)
(** * Vocabulary of the specification *)

(** The fixed enumerated set of channel values. *)
Definition valid_channels : list string := ["email"; "slack"; "webhook"; "push"].

Definition channel_is_valid (x : channel_field) : Prop :=
  channel_text x ∈ valid_channels.

(** The values of [NotificationStatus]. *)
Definition valid_statuses : list string := ["pending"; "sent"; "failed"; "read"].

(** The state a computation leaves behind. *)
Definition run {A} (m : M A) (w : World) : World := (m w).2.

(** The stored rows that carry a given id. *)
Definition rows_with_id (id : string) (w : World) : list NotificationRow :=
  filter (λ r, row_id r = id) (notifications w).

(** The [sent_at] column of the stored notification [id]: [None] when no row
    is stored, [Some None] when the column is NULL. *)
Definition sent_at_of (id : string) (w : World) : option (option Z) :=
  row_sent_at <$> head (rows_with_id id w).

Definition status_of (id : string) (w : World) : option string :=
  row_status <$> head (rows_with_id id w).

(** The delivery-log row one call of [send_notification] appends. *)
Definition delivery_row (notification : Notification) (w : World) : DeliveryRow :=
  let success := bool_decide (channel_is_valid (n_channel notification)) in
  mkDelivery (dl_seq w + 1) (n_id notification)
    (channel_text (n_channel notification)) (clock w (S (ticks w)))
    (if success then 1 else 0)
    (if success then None
     else Some ("Unknown channel: " +:+ channel_text (n_channel notification)))
    (clock w (S (S (ticks w))) - clock w (ticks w)).

(** The notification row one call of [send_notification] writes. *)
Definition written_row (notification : Notification) (w : World) : NotificationRow :=
  let success := bool_decide (channel_is_valid (n_channel notification)) in
  notification_row notification (if success then SENT else FAILED)
    (if success then Some (clock w (S (ticks w))) else None).

(** The public operations that write, as a caller issues them. *)
Inductive op : Type :=
  | OpSend (n : Notification)
  | OpBatchSend (ns : list Notification)
  | OpMarkRead (id : string)
  | OpRetryFailed.

Definition run_op (o : op) (w : World) : World :=
  match o with
  | OpSend n => run (send_notification n) w
  | OpBatchSend ns => run (batch_send ns) w
  | OpMarkRead id => run (mark_read id) w
  | OpRetryFailed => run retry_failed w
  end.

(** The storage states the API can produce from a fresh database. *)
Inductive reachable : World → Prop :=
  | reachable_fresh clk : reachable (empty_world clk)
  | reachable_step o w : reachable w → reachable (run_op o w).

(** The sends of a list, one after the other. *)
Definition run_sends (ns : list Notification) (w : World) : World :=
  foldl (λ w n, run (send_notification n) w) w ns.

(** ** Batches *)

(** The dict a batch builds on top of [acc]: later elements overwrite. *)
Definition batch_result (acc : gmap string bool) (ns : list Notification)
    : gmap string bool :=
  foldl (λ m n, <[n_id n := bool_decide (channel_is_valid (n_channel n))]> m) acc ns.

(** ** Marking as read *)

(** The row an UPDATE of [mark_read id] leaves in place of [r]. *)
Definition mark_row (id : string) (r : NotificationRow) : NotificationRow :=
  if update_selects id "pending" r then set_row_status "read" r else r.

(** ** Reachable stores *)

(** What every stored row satisfies: its status is SENT, FAILED or READ; it
    is FAILED only with a channel outside the enumeration and SENT only with
    one inside; [sent_at] is set exactly when the channel is valid. *)
Definition row_ok (r : NotificationRow) : Prop :=
  row_status r ∈ ["sent"; "failed"; "read"] ∧
  (row_status r = "failed" → row_channel r ∉ valid_channels) ∧
  (row_status r = "sent" → row_channel r ∈ valid_channels) ∧
  (is_Some (row_sent_at r) ↔ row_channel r ∈ valid_channels).

Definition store_ok (w : World) : Prop :=
  NoDup (map row_id (notifications w)) ∧ Forall row_ok (notifications w).

(** ** Statistics *)

(** The delivery attempts a call counts: all of them without a filter (the
    argument is [None] or the empty string), those of the filter channel
    otherwise. *)
Definition attempts_in_scope (channel : option string) (log : list DeliveryRow)
    : list DeliveryRow :=
  match channel with
  | None => log
  | Some c => if decide (c = EmptyString) then log
              else filter (λ d, dl_channel d = c) log
  end.

(** [round(successful / total * 100, 2)] where the division is defined. *)
Definition success_rate_pct (successful total : Z) : float :=
  py_round (SFmul prec emax (SFdiv prec emax (int_exact successful) (int_exact total))
                  (float_of_int 100)) 2.

(** The notifications a call counts, as [attempts_in_scope] for the log. *)
Definition rows_in_scope (channel : option string) (rows : list NotificationRow)
    : list NotificationRow :=
  match channel with
  | None => rows
  | Some c => if decide (c = EmptyString) then rows
              else filter (λ r, row_channel r = c) rows
  end.

(** How many elements of a list fall under a key. *)
Definition count_key {A} (key : A → string) (k : string) (rows : list A) : nat :=
  length (filter (λ r, key r = k) rows).

(** ** Rendering *)

(** A template as [re.sub] reads it: characters copied as they are, and
    placeholders [{{inner}}]. *)
Inductive segment : Type :=
  | Lit (c : ascii)
  | Hole (inner : string).

Definition segment_text (seg : segment) : string :=
  match seg with
  | Lit c => String c EmptyString
  | Hole inner => "{{" +:+ inner +:+ "}}"
  end.

Definition join (parts : list string) : string :=
  foldr String.append EmptyString parts.

Fixpoint no_newline (s : string) : Prop :=
  match s with
  | EmptyString => True
  | String c s' => is_newline c = false ∧ no_newline s'
  end.

(** [u] reads [inner}}rest] with [inner] a non-empty run without newline. *)
Definition closes (inner rest u : string) : Prop :=
  u = inner +:+ "}}" +:+ rest ∧ inner ≠ EmptyString ∧ no_newline inner.

(** The non-greedy choice: no shorter run closes. *)
Definition closes_first (inner rest u : string) : Prop :=
  closes inner rest u ∧
  ∀ inner' rest', closes inner' rest' u →
    (String.length inner ≤ String.length inner')%nat.

(** The pattern matches at the start of [s], capturing [inner] and leaving
    [rest]. *)
Definition matches_at (s inner rest : string) : Prop :=
  ∃ u, s = "{{" +:+ u ∧ closes_first inner rest u.

(** Left-to-right, non-overlapping scan: a placeholder wherever the pattern
    matches, one copied character where it does not. *)
Inductive scans : string → list segment → Prop :=
  | scans_end : scans EmptyString []
  | scans_hole s inner rest segs :
      matches_at s inner rest → scans rest segs →
      scans s (Hole inner :: segs)
  | scans_lit c s segs :
      (∀ inner rest, ¬ matches_at (String c s) inner rest) → scans s segs →
      scans (String c s) (Lit c :: segs).

(** Walking the context along a dotted path: key lookup in a mapping,
    attribute access on anything else. *)
Inductive walks : value → list string → value → Prop :=
  | walks_here v : walks v [] v
  | walks_key text items part rest v v' :
      assoc part items = Some v → walks v rest v' →
      walks (VDict text items) (part :: rest) v'
  | walks_attr text attrs part rest v v' :
      assoc part attrs = Some v → walks v rest v' →
      walks (VObj text attrs) (part :: rest) v'.

(** What a segment contributes to the output: a placeholder whose trimmed
    path, split on dots, walks to a value gives [str] of that value; one
    whose path does not is left as written. *)
Definition segment_output (context : value) (seg : segment) (out : string) : Prop :=
  match seg with
  | Lit c => out = String c EmptyString
  | Hole inner =>
    (∃ v, walks context (split_dot (strip inner)) v ∧ out = py_str v) ∨
    ((∀ v, ¬ walks context (split_dot (strip inner)) v) ∧
     out = "{{" +:+ inner +:+ "}}" ∧ out ≠ EmptyString)
  end.

Fixpoint all_space (s : string) : Prop :=
  match s with
  | EmptyString => True
  | String c s' => is_space c = true ∧ all_space s'
  end.

Definition starts_with_space (s : string) : Prop :=
  match s with
  | String c _ => is_space c = true
  | EmptyString => False
  end.

Fixpoint ends_with_space (s : string) : Prop :=
  match s with
  | EmptyString => False
  | String c EmptyString => is_space c = true
  | String _ s' => ends_with_space s'
  end.

Fixpoint no_dot (s : string) : Prop :=
  match s with
  | EmptyString => True
  | String c s' => c ≠ "."%char ∧ no_dot s'
  end.

Fixpoint join_dot (parts : list string) : string :=
  match parts with
  | [] => EmptyString
  | [part] => part
  | part :: rest => part +:+ "." +:+ join_dot rest
  end.

(** ** The delivery log against the notifications table *)

(** The attempts recorded for a notification id, oldest first. *)
Definition attempts_of (id : string) (w : World) : list DeliveryRow :=
  filter (λ d, dl_notification_id d = id) (delivery_log w).

(** The AUTOINCREMENT ids of the log are 1, 2, 3, ... in insertion order. *)
Definition log_ids_ok (w : World) : Prop :=
  dl_seq w = Z.of_nat (length (delivery_log w)) ∧
  ∀ i d, delivery_log w !! i = Some d → dl_id d = Z.of_nat i + 1.

(** An attempt is recorded as a success without message on a valid channel,
    and as a failure that names the channel otherwise. *)
Definition attempt_ok (d : DeliveryRow) : Prop :=
  (dl_channel d ∈ valid_channels ∧ dl_success d = 1 ∧ dl_error_msg d = None) ∨
  ((dl_channel d ∉ valid_channels) ∧ dl_success d = 0 ∧
   dl_error_msg d = Some ("Unknown channel: " +:+ dl_channel d)).

(** The latest attempt of a stored notification is on the stored channel,
    and [sent_at] is its time when it succeeded and NULL when it failed. *)
Definition row_log_ok (w : World) (r : NotificationRow) : Prop :=
  ∃ d, last (attempts_of (row_id r) w) = Some d ∧
       dl_channel d = row_channel r ∧
       row_sent_at r = (if decide (dl_success d = 1) then Some (dl_attempt_at d)
                        else None).

Definition tables_ok (w : World) : Prop :=
  log_ids_ok w ∧
  Forall attempt_ok (delivery_log w) ∧
  Forall (row_log_ok w) (notifications w) ∧
  (∀ d, d ∈ delivery_log w → rows_with_id (dl_notification_id d) w ≠ []).

(** ** Templates *)

Definition templates_named (name : string) (h : Hub) : list TemplateRow :=
  filter (λ t, tpl_name t = name) (templates h).

(** The hubs [save_template] can produce from a fresh database. *)
Inductive hub_reachable : Hub → Prop :=
  | hub_reachable_fresh clk : hub_reachable (empty_hub clk)
  | hub_reachable_save name channel subject body h :
      hub_reachable h →
      hub_reachable (save_template name channel subject body h).2
  | hub_reachable_op o h :
      hub_reachable h →
      hub_reachable (mkHub (run_op o (hub_world h)) (templates h)).

(** ** Metadata text *)

Definition double_quote : ascii := "034"%char.
Definition backslash : ascii := "092"%char.

Definition hex_digit (n : N) : ascii :=
  match String.get (N.to_nat n) "0123456789abcdef" with
  | Some c => c
  | None => "0"%char
  end.

(** [json.dumps] with its default [ensure_ascii]: the double quote, the
    backslash and every character outside [' '..'~'] are escaped. *)
Definition json_escape_char (c : ascii) : string :=
  let n := N_of_ascii c in
  if decide (c = double_quote) then String backslash (String double_quote EmptyString)
  else if decide (c = backslash) then String backslash (String backslash EmptyString)
  else if decide (n = 8)%N then String backslash "b"
  else if decide (n = 12)%N then String backslash "f"
  else if decide (n = 10)%N then String backslash "n"
  else if decide (n = 13)%N then String backslash "r"
  else if decide (n = 9)%N then String backslash "t"
  else if decide (32 ≤ n ∧ n ≤ 126)%N then String c EmptyString
  else String backslash
         ("u00" +:+ String (hex_digit (n / 16))
                      (String (hex_digit (n mod 16)) EmptyString)).

Fixpoint json_escape (s : string) : string :=
  match s with
  | EmptyString => EmptyString
  | String c s' => json_escape_char c +:+ json_escape s'
  end.

Definition json_string (s : string) : string :=
  String double_quote (json_escape s +:+ String double_quote EmptyString).

Definition json_item (kv : string * string) : string :=
  json_string kv.1 +:+ ": " +:+ json_string kv.2.

Fixpoint json_items (items : list (string * string)) : string :=
  match items with
  | [] => EmptyString
  | kv :: rest =>
    match rest with
    | [] => json_item kv
    | _ :: _ => json_item kv +:+ ", " +:+ json_items rest
    end
  end.

(** [json.dumps] of a dict whose keys and values are [str], its items in
    insertion order. *)
Definition json_dumps_str_dict (items : list (string * string)) : string :=
  "{" +:+ json_items items +:+ "}".

(** Metadata text that [json.loads] reads into a dict of strings and
    [json.dumps] writes back as it was: the text of such a dict, whose keys
    are distinct. *)
Definition canonical_metadata (text : string) : Prop :=
  ∃ items, NoDup items.*1 ∧ text = json_dumps_str_dict items.

(** ** Plain text in templates *)

(** No opening brace anywhere. *)
Fixpoint no_open_brace (s : string) : Prop :=
  match s with
  | EmptyString => True
  | String c s' => c ≠ "{"%char ∧ no_open_brace s'
  end.

(** A placeholder body the pattern accepts whole: not empty, no closing
    brace, no newline. *)
Fixpoint no_close_brace (s : string) : Prop :=
  match s with
  | EmptyString => True
  | String c s' => c ≠ "}"%char ∧ is_newline c = false ∧ no_close_brace s'
  end.

(** A key that [strip] and [split] leave whole: no dot, no whitespace at
    either end. *)
Definition plain_key (key : string) : Prop :=
  key ≠ EmptyString ∧ no_close_brace key ∧ no_dot key ∧
  ¬ starts_with_space key ∧ ¬ ends_with_space key.

(** ** Sample data for the concrete runs *)

Definition sample_clock (k : nat) : Z := 1700000000000000 + 250 * Z.of_nat k.

Definition sample_world : World := empty_world sample_clock.

Definition sample_email : Notification :=
  mkNotification "n-1" "alert" "alice@example.com" "Hi" "Hello"
    (ChanMember EMAIL) PENDING None 1699999999000000 "{}" 0.

Definition sample_sms : Notification :=
  mkNotification "n-2" "alert" "bob@example.com" "Hi" "Hello"
    (ChanStr "sms") PENDING None 1699999999000000 "{}" 0.

(** Same id as [sample_email], other content. *)
Definition sample_email_v2 : Notification :=
  mkNotification "n-1" "info" "carol@example.com" "Update" "Changed"
    (ChanMember SLACK) PENDING None 1699999999500000 "{}" 0.

(** Same id as [sample_email], with a channel outside the enumeration. *)
Definition sample_email_sms : Notification :=
  mkNotification "n-1" "alert" "alice@example.com" "Hi" "Hello"
    (ChanStr "sms") PENDING None 1699999999000000 "{}" 0.

(** The store of the test suite's retry test: one FAILED row with a valid
    channel, put there by a direct INSERT. *)
Definition inserted_failed_row : NotificationRow :=
  mkRow "test-id" "t" "u@e.com" "S" "B" "email" "failed" None 1699999999000000 "{}" 0.

(** A stored row whose metadata is the text of a two-entry dict. *)
Definition sample_metadata_items : list (string * string) :=
  [("source", "cron"); ("note", String double_quote "quoted")].

Definition sample_metadata_row : NotificationRow :=
  mkRow "n-7" "alert" "dave@example.com" "Hi" "Hello" "push" "sent"
        (Some 1700000000000250) 1699999999000000
        (json_dumps_str_dict sample_metadata_items) 2.

Definition inserted_failed_world : World :=
  mkWorld [inserted_failed_row] [] 0 sample_clock 0.

(* ------------------------------------------------------------------------ *)
(** * Proof automation *)

(** Runs the monadic glue of an API function down to its effect on the
    world. *)
Ltac run_M :=
  unfold mbind, M_bind, mret, M_ret, init_db, lift, get_world, time_time,
    try_except_ValueError, exec_insert_or_replace_notification,
    exec_insert_delivery_log, exec_update_status, select_notification_by_id,
    select_notifications_by_status;
  simpl.

(* ------------------------------------------------------------------------ *)
(** * Channel validation *)

Lemma Channel_of_value_valid s :
  s ∈ valid_channels → ∃ c, Channel_of_value s = Ok c ∧ Channel_value c = s.
Proof.
  unfold valid_channels. rewrite !elem_of_cons, elem_of_nil.
  intros [->|[->|[->|[->|[]]]]]; eexists; split; reflexivity.
Qed.

Lemma Channel_of_value_invalid s :
  s ∉ valid_channels → Channel_of_value s = Raise ValueError.
Proof.
  unfold valid_channels. rewrite !elem_of_cons, elem_of_nil. intros H.
  unfold Channel_of_value.
  repeat (case_decide; [exfalso; apply H; tauto|]). reflexivity.
Qed.

Lemma Channel_of_value_Ok s c :
  Channel_of_value s = Ok c → s ∈ valid_channels ∧ Channel_value c = s.
Proof.
  intros H. destruct (decide (s ∈ valid_channels)) as [Hin|Hout].
  - split; [done|]. destruct (Channel_of_value_valid s Hin) as (c' & Hc & Hv).
    congruence.
  - rewrite (Channel_of_value_invalid s Hout) in H. discriminate.
Qed.

Lemma Channel_value_valid c : Channel_value c ∈ valid_channels.
Proof. unfold valid_channels. destruct c; simpl; set_solver. Qed.

Lemma Channel_call_spec x :
  Channel_call x =
    if bool_decide (channel_is_valid x)
    then Channel_call x else Raise ValueError.
Proof.
  case_bool_decide as H; [done|]. destruct x as [c|s]; simpl in *.
  - exfalso. apply H. apply Channel_value_valid.
  - by apply Channel_of_value_invalid.
Qed.

Lemma Channel_call_valid x :
  channel_is_valid x → ∃ c, Channel_call x = Ok c.
Proof.
  destruct x as [c|s]; simpl; [eauto|]. intros H.
  destruct (Channel_of_value_valid s H) as (c & Hc & _). eauto.
Qed.

(** The complete effect of one call of [send_notification]. *)
Lemma send_notification_eq n w :
  send_notification n w =
    (Ok (bool_decide (channel_is_valid (n_channel n)),
         set_status_sent_at n
           (if bool_decide (channel_is_valid (n_channel n)) then SENT else FAILED)
           (row_sent_at (written_row n w))),
     mkWorld (insert_or_replace (written_row n w) (notifications w))
             (delivery_log w ++ [delivery_row n w])
             (dl_seq w + 1) (clock w) (S (S (S (ticks w))))).
Proof.
  unfold send_notification, written_row, delivery_row. run_M.
  case_bool_decide as H.
  - destruct (Channel_call_valid _ H) as [c ->]. reflexivity.
  - rewrite Channel_call_spec, bool_decide_eq_false_2 by done. reflexivity.
Qed.

Lemma run_send_notification n w :
  run (send_notification n) w =
    mkWorld (insert_or_replace (written_row n w) (notifications w))
            (delivery_log w ++ [delivery_row n w])
            (dl_seq w + 1) (clock w) (S (S (S (ticks w)))).
Proof. unfold run. by rewrite send_notification_eq. Qed.

(* ------------------------------------------------------------------------ *)
(** * The notifications table under INSERT OR REPLACE *)

Lemma filter_insert_or_replace_same r tbl :
  filter (λ r', row_id r' = row_id r) (insert_or_replace r tbl) = [r].
Proof.
  unfold insert_or_replace. rewrite filter_app.
  replace (filter (λ r', row_id r' = row_id r)
             (filter (λ r', row_id r' ≠ row_id r) tbl)) with (@nil NotificationRow).
  - simpl. rewrite filter_cons_True by done. reflexivity.
  - symmetry. induction tbl as [|x tbl IH]; [done|].
    destruct (decide (row_id x = row_id r)) as [Heq|Hne].
    + by rewrite (filter_cons_False (λ r', row_id r' ≠ row_id r)) by tauto.
    + rewrite (filter_cons_True (λ r', row_id r' ≠ row_id r)) by done.
      by rewrite filter_cons_False by done.
Qed.

Lemma filter_insert_or_replace_other r tbl id :
  id ≠ row_id r →
  filter (λ r', row_id r' = id) (insert_or_replace r tbl)
  = filter (λ r', row_id r' = id) tbl.
Proof.
  intros Hne. unfold insert_or_replace. rewrite filter_app.
  rewrite (filter_cons_False _ r) by (simpl; congruence).
  rewrite filter_nil, app_nil_r.
  induction tbl as [|x tbl IH]; [done|].
  destruct (decide (row_id x = id)) as [Heq|Hne'].
  - rewrite (filter_cons_True (λ r', row_id r' ≠ row_id r)) by congruence.
    rewrite !filter_cons_True by done. by rewrite IH.
  - rewrite (filter_cons_False (λ r', row_id r' = id) x) by done.
    destruct (decide (row_id x = row_id r)).
    + by rewrite (filter_cons_False (λ r', row_id r' ≠ row_id r)) by tauto.
    + rewrite (filter_cons_True (λ r', row_id r' ≠ row_id r)) by done.
      by rewrite filter_cons_False by done.
Qed.

Lemma written_row_id n w : row_id (written_row n w) = n_id n.
Proof. reflexivity. Qed.

Lemma rows_with_id_send_same n w :
  rows_with_id (n_id n) (run (send_notification n) w) = [written_row n w].
Proof.
  unfold rows_with_id. rewrite run_send_notification.
  exact (filter_insert_or_replace_same (written_row n w) (notifications w)).
Qed.

Lemma rows_with_id_send_other n w id :
  id ≠ n_id n →
  rows_with_id id (run (send_notification n) w) = rows_with_id id w.
Proof.
  intros Hne. unfold rows_with_id. rewrite run_send_notification. simpl.
  by apply filter_insert_or_replace_other.
Qed.

(* ------------------------------------------------------------------------ *)
(** * [send_notification] *)

Lemma sample_email_valid : channel_is_valid (n_channel sample_email).
Proof. refine (bool_decide_unpack _ _). vm_compute. exact I. Defined.

Lemma sample_sms_invalid : ¬ channel_is_valid (n_channel sample_sms).
Proof. refine (proj1 (bool_decide_eq_false _) _). vm_compute. reflexivity. Defined.

Lemma channel_valid_true x :
  channel_is_valid x → bool_decide (channel_is_valid x) = true.
Proof. intros H. by apply bool_decide_eq_true_2. Qed.

Lemma channel_invalid_false x :
  ¬ channel_is_valid x → bool_decide (channel_is_valid x) = false.
Proof. intros H. by apply bool_decide_eq_false_2. Qed.

(** C4: for a notification whose channel is one of the four valid values,
    [send_notification] returns true and stores exactly one row under the
    notification's id: its status column is "sent", its [sent_at] column is
    the time of the send (not NULL), and the other columns are the
    notification's fields.  The call appends exactly one delivery-log row,
    for this id and at that time, with success recorded as 1. *)
Theorem send_valid_channel_is_sent (n : Notification) (w : World) :
  channel_is_valid (n_channel n) →
  ∃ n' w' now d,
    send_notification n w = (Ok (true, n'), w') ∧
    n_status n' = SENT ∧ n_sent_at n' = Some now ∧
    rows_with_id (n_id n) w' =
      [mkRow (n_id n) (n_type n) (n_recipient n) (n_subject n) (n_body n)
             (channel_text (n_channel n)) "sent" (Some now)
             (n_created_at n) (n_metadata n) (n_retry_count n)] ∧
    status_of (n_id n) w' = Some "sent" ∧
    sent_at_of (n_id n) w' = Some (Some now) ∧
    now = clock w (S (ticks w)) ∧
    delivery_log w' = delivery_log w ++ [d] ∧
    dl_notification_id d = n_id n ∧ dl_attempt_at d = now ∧
    dl_success d = 1 ∧ dl_error_msg d = None.
Proof.
  intros Hvalid.
  exists (set_status_sent_at n SENT (Some (clock w (S (ticks w))))),
         (run (send_notification n) w), (clock w (S (ticks w))), (delivery_row n w).
  assert (Hrow : written_row n w = notification_row n SENT (Some (clock w (S (ticks w))))).
  { unfold written_row. by rewrite channel_valid_true. }
  assert (Hrows : rows_with_id (n_id n) (run (send_notification n) w) =
      [mkRow (n_id n) (n_type n) (n_recipient n) (n_subject n) (n_body n)
             (channel_text (n_channel n)) "sent" (Some (clock w (S (ticks w))))
             (n_created_at n) (n_metadata n) (n_retry_count n)]).
  { by rewrite rows_with_id_send_same, Hrow. }
  split.
  { unfold run. rewrite send_notification_eq. simpl.
    rewrite Hrow, channel_valid_true by done. reflexivity. }
  split; [done|]. split; [done|]. split; [exact Hrows|].
  split; [unfold status_of; by rewrite Hrows|].
  split; [unfold sent_at_of; by rewrite Hrows|].
  split; [done|]. split; [by rewrite run_send_notification|].
  split; [done|]. split; [done|].
  unfold delivery_row. simpl. by rewrite channel_valid_true.
Qed.

Lemma send_valid_channel_is_sent_witness :
  ∃ n' w',
    send_notification sample_email sample_world = (Ok (true, n'), w') ∧
    n_status n' = SENT ∧
    rows_with_id "n-1" w' =
      [mkRow "n-1" "alert" "alice@example.com" "Hi" "Hello" "email" "sent"
             (Some 1700000000000250) 1699999999000000 "{}" 0].
Proof.
  destruct (send_valid_channel_is_sent sample_email sample_world sample_email_valid)
    as (n' & w' & now & d & H1 & H2 & _ & H4 & _ & _ & H7 & _).
  exists n', w'. split; [assumption|]. split; [assumption|].
  rewrite H7 in H4. exact H4.
Defined.

(** C5: for a notification whose channel is not one of the four valid
    values, [send_notification] does not raise: it returns false and stores
    exactly one row under the notification's id, whose status column is
    "failed", whose [sent_at] column is NULL and whose other columns are the
    notification's fields.  The call appends one delivery-log row for this
    id, with success recorded as 0 and the error message "Unknown channel: "
    followed by the channel. *)
Theorem send_invalid_channel_is_failed (n : Notification) (w : World) :
  ¬ channel_is_valid (n_channel n) →
  ∃ n' w' d msg,
    send_notification n w = (Ok (false, n'), w') ∧
    n_status n' = FAILED ∧ n_sent_at n' = None ∧
    rows_with_id (n_id n) w' =
      [mkRow (n_id n) (n_type n) (n_recipient n) (n_subject n) (n_body n)
             (channel_text (n_channel n)) "failed" None
             (n_created_at n) (n_metadata n) (n_retry_count n)] ∧
    status_of (n_id n) w' = Some "failed" ∧
    sent_at_of (n_id n) w' = Some None ∧
    delivery_log w' = delivery_log w ++ [d] ∧
    dl_notification_id d = n_id n ∧ dl_success d = 0 ∧ dl_error_msg d = Some msg ∧
    msg = "Unknown channel: " +:+ channel_text (n_channel n).
Proof.
  intros Hinvalid.
  exists (set_status_sent_at n FAILED None), (run (send_notification n) w),
         (delivery_row n w), ("Unknown channel: " +:+ channel_text (n_channel n)).
  assert (Hrow : written_row n w = notification_row n FAILED None).
  { unfold written_row. by rewrite channel_invalid_false. }
  assert (Hrows : rows_with_id (n_id n) (run (send_notification n) w) =
      [mkRow (n_id n) (n_type n) (n_recipient n) (n_subject n) (n_body n)
             (channel_text (n_channel n)) "failed" None
             (n_created_at n) (n_metadata n) (n_retry_count n)]).
  { by rewrite rows_with_id_send_same, Hrow. }
  split.
  { unfold run. rewrite send_notification_eq. simpl.
    rewrite Hrow, channel_invalid_false by done. reflexivity. }
  split; [done|]. split; [done|]. split; [exact Hrows|].
  split; [unfold status_of; by rewrite Hrows|].
  split; [unfold sent_at_of; by rewrite Hrows|].
  split; [by rewrite run_send_notification|]. split; [done|].
  split; [unfold delivery_row; simpl; by rewrite channel_invalid_false|].
  split; [unfold delivery_row; simpl; by rewrite channel_invalid_false|done].
Qed.

Lemma send_invalid_channel_is_failed_witness :
  ∃ n' w',
    send_notification sample_sms sample_world = (Ok (false, n'), w') ∧
    n_status n' = FAILED ∧
    rows_with_id "n-2" w' =
      [mkRow "n-2" "alert" "bob@example.com" "Hi" "Hello" "sms" "failed"
             None 1699999999000000 "{}" 0].
Proof.
  destruct (send_invalid_channel_is_failed sample_sms sample_world sample_sms_invalid)
    as (n' & w' & d & msg & H1 & H2 & _ & H4 & _).
  exists n', w'. split; [assumption|]. split; assumption.
Defined.

(** C7: when two notifications carry the same id, sending the first and then
    the second leaves exactly one stored row for that id.  Every column of
    that row comes from the second send: type, recipient, subject, body,
    channel, [created_at], metadata and [retry_count] are the second
    notification's, the status is "sent" with the time of the second send as
    [sent_at] when its channel is valid, and "failed" with a NULL [sent_at]
    otherwise. *)
Theorem resend_same_id_upserts (n1 n2 : Notification) (w : World) :
  n_id n1 = n_id n2 →
  let w1 := run (send_notification n1) w in
  let w2 := run (send_notification n2) w1 in
  let ok := bool_decide (channel_is_valid (n_channel n2)) in
  rows_with_id (n_id n1) w2 =
    [mkRow (n_id n2) (n_type n2) (n_recipient n2) (n_subject n2) (n_body n2)
           (channel_text (n_channel n2))
           (if ok then "sent" else "failed")
           (if ok then Some (clock w1 (S (ticks w1))) else None)
           (n_created_at n2) (n_metadata n2) (n_retry_count n2)].
Proof.
  intros Hid w1 w2 ok. subst w2. rewrite Hid, rows_with_id_send_same.
  unfold written_row, notification_row. fold ok. by destruct ok.
Qed.

Lemma resend_same_id_upserts_witness :
  rows_with_id "n-1"
    (run (send_notification sample_email_v2)
         (run (send_notification sample_email) sample_world))
  = [mkRow "n-1" "info" "carol@example.com" "Update" "Changed" "slack" "sent"
           (Some 1700000000001000) 1699999999500000 "{}" 0].
Proof.
  exact (resend_same_id_upserts sample_email sample_email_v2 sample_world eq_refl).
Defined.

(* ------------------------------------------------------------------------ *)
(** * Decoding stored rows: [_row_to_notification] and [get_notification] *)

Lemma row_to_notification_invalid_channel r :
  row_channel r ∉ valid_channels → _row_to_notification r = Raise ValueError.
Proof.
  intros H. unfold _row_to_notification.
  by rewrite (Channel_of_value_invalid _ H).
Qed.

Lemma row_to_notification_raises r e :
  _row_to_notification r = Raise e → e = ValueError.
Proof.
  unfold _row_to_notification, Channel_of_value, NotificationStatus_of_value.
  repeat case_decide; congruence.
Qed.

Lemma row_to_notification_Ok r n :
  _row_to_notification r = Ok n →
  row_channel r ∈ valid_channels ∧ n_id n = row_id r ∧
  n_retry_count n = row_retry_count r ∧
  channel_text (n_channel n) = row_channel r.
Proof.
  unfold _row_to_notification.
  destruct (Channel_of_value (row_channel r)) as [c|e] eqn:Hc; [|discriminate].
  destruct (NotificationStatus_of_value (row_status r)) as [st|e]; [|discriminate].
  intros [= <-]. simpl. destruct (Channel_of_value_Ok _ _ Hc). done.
Qed.

Lemma get_notification_eq id w :
  get_notification id w =
    match head (rows_with_id id w) with
    | Some r =>
      match _row_to_notification r with
      | Ok n => (Ok (Some n), w)
      | Raise e => (Raise e, w)
      end
    | None => (Ok None, w)
    end.
Proof.
  unfold get_notification, rows_with_id. run_M.
  destruct (head _) as [r|]; [|done]. by destruct (_row_to_notification r).
Qed.

(** C10: a notification that [send_notification] stored with a channel
    outside the four enumerated values is stored with status FAILED, and
    [get_notification] on its id raises [ValueError] while decoding the row
    instead of returning the notification. *)
Theorem get_notification_invalid_channel_raises (n : Notification) (w : World) :
  ¬ channel_is_valid (n_channel n) →
  let w' := run (send_notification n) w in
  status_of (n_id n) w' = Some "failed" ∧
  get_notification (n_id n) w' = (Raise ValueError, w').
Proof.
  intros Hinvalid w'. subst w'.
  assert (Hrow : written_row n w = notification_row n FAILED None).
  { unfold written_row. by rewrite channel_invalid_false. }
  split.
  - unfold status_of. by rewrite rows_with_id_send_same, Hrow.
  - rewrite get_notification_eq, rows_with_id_send_same. simpl.
    rewrite row_to_notification_invalid_channel; [done|].
    rewrite Hrow. exact Hinvalid.
Qed.

Lemma get_notification_invalid_channel_raises_witness :
  get_notification "n-2" (run (send_notification sample_sms) sample_world)
  = (Raise ValueError, run (send_notification sample_sms) sample_world).
Proof.
  exact (proj2 (get_notification_invalid_channel_raises sample_sms sample_world
                  sample_sms_invalid)).
Defined.

(* ------------------------------------------------------------------------ *)
(** * [batch_send] *)

Lemma batch_send_from_eq ns : ∀ acc w,
  batch_send_from acc ns w = (Ok (batch_result acc ns), run_sends ns w).
Proof.
  induction ns as [|n ns IH]; intros acc w; [done|].
  simpl. unfold mbind, M_bind. rewrite send_notification_eq.
  rewrite IH. unfold run_sends. simpl. by rewrite run_send_notification.
Qed.

Lemma batch_result_lookup_notin post : ∀ (acc : gmap string bool) id,
  id ∉ map n_id post → batch_result acc post !! id = acc !! id.
Proof.
  induction post as [|n post IH]; intros acc id Hnotin; [done|].
  simpl in *. apply not_elem_of_cons in Hnotin as [Hne Hnotin].
  unfold batch_result in *. simpl. rewrite IH by done.
  by rewrite lookup_insert_ne.
Qed.

Lemma batch_result_dom ns : ∀ (acc : gmap string bool),
  dom (batch_result acc ns) = dom acc ∪ list_to_set (map n_id ns).
Proof.
  induction ns as [|n ns IH]; intros acc; simpl.
  - set_solver.
  - unfold batch_result in *. simpl. rewrite IH, dom_insert_L. set_solver.
Qed.

Lemma run_sends_app pre post w :
  run_sends (pre ++ post) w = run_sends post (run_sends pre w).
Proof. unfold run_sends. apply foldl_app. Qed.

Lemma run_sends_delivery_log ns : ∀ w,
  ∃ rows,
    delivery_log (run_sends ns w) = delivery_log w ++ rows ∧
    map dl_notification_id rows = map n_id ns ∧
    map dl_success rows =
      map (λ n, if bool_decide (channel_is_valid (n_channel n)) then 1 else 0) ns.
Proof.
  induction ns as [|n ns IH]; intros w.
  - exists []. simpl. by rewrite app_nil_r.
  - destruct (IH (run (send_notification n) w)) as (rows & Hlog & Hids & Hok).
    exists (delivery_row n w :: rows). unfold run_sends in *. simpl.
    rewrite Hlog, run_send_notification. simpl.
    rewrite <- app_assoc. simpl. rewrite Hids, Hok. done.
Qed.

(** C8: [batch_send] sends the notifications one after the other in list
    order; every element gets its own delivery attempt whatever the outcome
    of the others; the call returns a mapping from id to success whose keys
    are the distinct ids of the list, and the entry of an id is the result of
    the last send issued for it. *)
Theorem batch_send_sequential_last_wins (ns : list Notification) (w : World) :
  ∃ m rows,
    batch_send ns w = (Ok m, run_sends ns w) ∧
    delivery_log (run_sends ns w) = delivery_log w ++ rows ∧
    map dl_notification_id rows = map n_id ns ∧
    map dl_success rows =
      map (λ n, if bool_decide (channel_is_valid (n_channel n)) then 1 else 0) ns ∧
    dom m = list_to_set (map n_id ns) ∧
    ∀ pre n post, ns = pre ++ n :: post → n_id n ∉ map n_id post →
      ∃ b n' w', send_notification n (run_sends pre w) = (Ok (b, n'), w') ∧
                 m !! n_id n = Some b.
Proof.
  destruct (run_sends_delivery_log ns w) as (rows & Hlog & Hids & Hok).
  exists (batch_result ∅ ns), rows.
  split; [apply batch_send_from_eq|].
  split; [done|]. split; [done|]. split; [done|]. split.
  - rewrite batch_result_dom. set_solver.
  - intros pre n post -> Hnotin.
    eexists _, _, _. split; [apply send_notification_eq|].
    unfold batch_result. rewrite foldl_app. simpl.
    fold (batch_result
            (<[n_id n := bool_decide (channel_is_valid (n_channel n))]>
               (foldl (λ m n0, <[n_id n0 := bool_decide (channel_is_valid (n_channel n0))]> m)
                      ∅ pre)) post).
    rewrite batch_result_lookup_notin by done.
    by rewrite lookup_insert_eq.
Qed.

(* ------------------------------------------------------------------------ *)
(** * [mark_read] *)

Lemma filter_update_selects id p (tbl : list NotificationRow) :
  filter (λ r, update_selects id p r = true) tbl
  = filter (λ r, row_status r ≠ p) (filter (λ r, row_id r = id) tbl).
Proof.
  rewrite list_filter_filter. apply list_filter_iff. intros r.
  unfold update_selects. rewrite bool_decide_eq_true. tauto.
Qed.

Lemma mark_read_eq id w :
  mark_read id w =
    (Ok (bool_decide
           (Z.of_nat (length (filter (λ r, row_status r ≠ "pending") (rows_with_id id w))) > 0)),
     mkWorld (map (mark_row id) (notifications w)) (delivery_log w) (dl_seq w)
             (clock w) (ticks w)).
Proof.
  unfold mark_read, rows_with_id. run_M.
  by rewrite filter_update_selects.
Qed.

Lemma mark_row_id id r : row_id (mark_row id r) = row_id r.
Proof. unfold mark_row. by destruct (update_selects _ _ _). Qed.

Lemma mark_row_sent_at id r : row_sent_at (mark_row id r) = row_sent_at r.
Proof. unfold mark_row. by destruct (update_selects _ _ _). Qed.

Lemma mark_row_channel id r : row_channel (mark_row id r) = row_channel r.
Proof. unfold mark_row. by destruct (update_selects _ _ _). Qed.

Lemma filter_id_map_mark id id' tbl :
  filter (λ r, row_id r = id) (map (mark_row id') tbl)
  = map (mark_row id') (filter (λ r, row_id r = id) tbl).
Proof.
  induction tbl as [|r tbl IH]; [done|]. simpl.
  destruct (decide (row_id r = id)) as [Heq|Hne].
  - rewrite !filter_cons_True by (by rewrite ?mark_row_id). simpl. by rewrite IH.
  - rewrite !filter_cons_False by (by rewrite ?mark_row_id). done.
Qed.

Lemma rows_with_id_mark_read id id' w :
  rows_with_id id (run (mark_read id') w) = map (mark_row id') (rows_with_id id w).
Proof.
  unfold run. rewrite mark_read_eq. unfold rows_with_id. simpl.
  apply filter_id_map_mark.
Qed.

Lemma mark_row_read id r :
  row_status r = "read" → mark_row id r = r.
Proof.
  intros H. unfold mark_row. destruct (update_selects _ _ _); [|done].
  destruct r; simpl in *; by subst.
Qed.

Lemma mark_row_other id r :
  row_id r ≠ id → mark_row id r = r.
Proof.
  intros H. unfold mark_row, update_selects.
  rewrite bool_decide_eq_false_2; [done|tauto].
Qed.

Lemma mark_row_selected id r :
  row_id r = id → row_status r ≠ "pending" →
  mark_row id r = set_row_status "read" r.
Proof.
  intros H1 H2. unfold mark_row, update_selects.
  by rewrite bool_decide_eq_true_2.
Qed.

(** A call on an id that no stored row carries changes nothing and returns
    false. *)
Lemma mark_read_absent id w :
  rows_with_id id w = [] → mark_read id w = (Ok false, w).
Proof.
  intros Habs. rewrite mark_read_eq, Habs. simpl. f_equal.
  destruct w as [tbl log seq clk tk]. simpl. f_equal.
  unfold rows_with_id in Habs. simpl in Habs.
  induction tbl as [|r tbl IH]; [done|].
  destruct (decide (row_id r = id)) as [Heq|Hne].
  - by rewrite filter_cons_True in Habs.
  - rewrite filter_cons_False in Habs by done. simpl.
    by rewrite mark_row_other, IH.
Qed.

(** A call on a stored SENT or FAILED notification returns true and leaves
    it READ. *)
Lemma mark_read_unread id w r :
  rows_with_id id w = [r] → row_status r = "sent" ∨ row_status r = "failed" →
  (mark_read id w).1 = Ok true ∧
  rows_with_id id (run (mark_read id) w) = [set_row_status "read" r].
Proof.
  intros Hrows Hst.
  assert (Hnp : row_status r ≠ "pending") by (destruct Hst as [->| ->]; done).
  assert (Hid : row_id r = id).
  { assert (Hin : r ∈ rows_with_id id w) by (rewrite Hrows; set_solver).
    unfold rows_with_id in Hin. by apply list_elem_of_filter in Hin as [? _]. }
  split.
  - rewrite mark_read_eq, Hrows. simpl. by rewrite filter_cons_True.
  - rewrite rows_with_id_mark_read, Hrows. simpl. by rewrite mark_row_selected.
Qed.

(** A call on a stored READ notification returns true as well: the UPDATE
    excludes PENDING rows only, so the row is selected again and counted. *)
Lemma mark_read_already_read id w r :
  rows_with_id id w = [r] → row_status r = "read" →
  mark_read id w = (Ok true, w).
Proof.
  intros Hrows Hst. rewrite mark_read_eq, Hrows.
  rewrite filter_cons_True by (by rewrite Hst). simpl. f_equal.
  destruct w as [tbl log seq clk tk]. simpl. f_equal.
  unfold rows_with_id in Hrows. simpl in Hrows.
  assert (Hall : ∀ x, x ∈ tbl → row_id x = id → x = r).
  { intros x Hx Hxid.
    assert (Hin : x ∈ filter (λ r0, row_id r0 = id) tbl)
      by (by apply list_elem_of_filter).
    rewrite Hrows in Hin. set_solver. }
  clear Hrows. induction tbl as [|x tbl IH]; [done|]. simpl.
  rewrite IH by (intros; apply Hall; [by right|done]). f_equal.
  destruct (decide (row_id x = id)) as [Heq|Hne].
  - rewrite (Hall x) by (done || by left). by apply mark_row_read.
  - by apply mark_row_other.
Qed.

(** C1, as the code behaves: after a notification has been sent,
    [mark_read] on its id returns true and leaves it READ, and a second
    [mark_read] on the same id leaves the state unchanged but returns true
    again, not false. *)
Theorem mark_read_second_call_returns_true (n : Notification) (w : World) :
  let w1 := run (send_notification n) w in
  let w2 := run (mark_read (n_id n)) w1 in
  (mark_read (n_id n) w1).1 = Ok true ∧
  status_of (n_id n) w2 = Some "read" ∧
  mark_read (n_id n) w2 = (Ok true, w2).
Proof.
  intros w1 w2.
  assert (Hst : row_status (written_row n w) = "sent"
                ∨ row_status (written_row n w) = "failed").
  { unfold written_row. destruct (bool_decide _); simpl; auto. }
  destruct (mark_read_unread (n_id n) w1 (written_row n w)
              (rows_with_id_send_same n w) Hst) as [Hret Hrows].
  split; [done|]. split.
  - unfold status_of. subst w2. by rewrite Hrows.
  - by apply (mark_read_already_read _ _ _ Hrows).
Qed.

(* ------------------------------------------------------------------------ *)
(** * Storage states the API can reach *)

Lemma written_row_ok n w : row_ok (written_row n w).
Proof.
  unfold row_ok, written_row. case_bool_decide as H; simpl.
  - split; [set_solver|]. split; [done|]. split; [done|]. split; [done|eauto].
  - split; [set_solver|]. split; [done|]. split; [done|].
    split; [by intros [? ?]|done].
Qed.

Lemma mark_row_ok id r : row_ok r → row_ok (mark_row id r).
Proof.
  intros (H1 & H2 & H3 & H4). unfold mark_row.
  destruct (update_selects _ _ _); [|done].
  unfold row_ok. simpl. split; [set_solver|]. done.
Qed.

Lemma insert_or_replace_NoDup r tbl :
  NoDup (map row_id tbl) → NoDup (map row_id (insert_or_replace r tbl)).
Proof.
  intros Hnd. unfold insert_or_replace. rewrite map_app. simpl.
  apply NoDup_app. split; [|split].
  - induction tbl as [|x tbl IH]; [constructor|].
    simpl in Hnd. apply NoDup_cons in Hnd as [Hx Hnd].
    destruct (decide (row_id x ≠ row_id r)).
    + rewrite filter_cons_True by done. simpl. apply NoDup_cons. split; [|auto].
      intros Hin. apply Hx. apply list_elem_of_fmap in Hin as (y & -> & Hy).
      apply list_elem_of_filter in Hy as [_ Hy]. apply list_elem_of_fmap. eauto.
    + rewrite filter_cons_False by done. auto.
  - intros i Hi Hi'. apply list_elem_of_fmap in Hi as (y & -> & Hy).
    apply list_elem_of_filter in Hy as [Hy _]. set_solver.
  - apply NoDup_singleton.
Qed.

Lemma Forall_filter_keep {A} (P Q : A → Prop) `{∀ x, Decision (Q x)} (l : list A) :
  Forall P l → Forall P (filter Q l).
Proof.
  rewrite !Forall_forall. intros HP x Hx.
  apply list_elem_of_filter in Hx as [_ Hx]. auto.
Qed.

Lemma map_row_id_mark id (tbl : list NotificationRow) :
  map row_id (map (mark_row id) tbl) = map row_id tbl.
Proof.
  induction tbl as [|r tbl IH]; [done|]. simpl. by rewrite mark_row_id, IH.
Qed.

Lemma send_notification_store_ok n w :
  store_ok w → store_ok (run (send_notification n) w).
Proof.
  intros [Hnd Hall]. rewrite run_send_notification. split; simpl.
  - by apply insert_or_replace_NoDup.
  - unfold insert_or_replace. apply Forall_app. split.
    + by apply Forall_filter_keep.
    + apply Forall_singleton, written_row_ok.
Qed.

Lemma run_sends_store_ok ns : ∀ w, store_ok w → store_ok (run_sends ns w).
Proof.
  induction ns as [|n ns IH]; intros w Hok; [done|].
  apply (IH (run (send_notification n) w)). by apply send_notification_store_ok.
Qed.

Lemma mark_read_store_ok id w : store_ok w → store_ok (run (mark_read id) w).
Proof.
  intros [Hnd Hall]. unfold run. rewrite mark_read_eq. split; simpl.
  - by rewrite map_row_id_mark.
  - apply Forall_fmap. eapply Forall_impl; [exact Hall|].
    intros r Hr. by apply mark_row_ok.
Qed.

(* ------------------------------------------------------------------------ *)
(** * [retry_failed] *)

Lemma retry_failed_eq w :
  retry_failed w =
    match rows_to_notifications (filter (λ r, row_status r = "failed") (notifications w)) with
    | Ok ns => retry_loop ns 0 w
    | Raise e => (Raise e, w)
    end.
Proof.
  unfold retry_failed. run_M. by destruct (rows_to_notifications _).
Qed.

Lemma rows_to_notifications_raises rows r :
  r ∈ rows → row_channel r ∉ valid_channels →
  rows_to_notifications rows = Raise ValueError.
Proof.
  intros Hin Hbad. induction rows as [|x rows IH]; [by apply elem_of_nil in Hin|].
  simpl. destruct (_row_to_notification x) as [n|e] eqn:Hx.
  - apply elem_of_cons in Hin as [->|Hin].
    + rewrite row_to_notification_invalid_channel in Hx by done. discriminate.
    + by rewrite IH.
  - by rewrite (row_to_notification_raises _ _ Hx).
Qed.

(** In a state the API can reach, [retry_failed] has nothing it can retry:
    without FAILED rows it returns 0, with one it raises, and the state is
    the same afterwards. *)
Lemma retry_failed_store_ok w :
  store_ok w →
  retry_failed w =
    (match filter (λ r, row_status r = "failed") (notifications w) with
     | [] => Ok 0
     | _ :: _ => Raise ValueError
     end, w).
Proof.
  intros [_ Hall]. rewrite retry_failed_eq.
  destruct (filter _ (notifications w)) as [|r rows] eqn:Hf; [done|].
  assert (Hin : r ∈ filter (λ r, row_status r = "failed") (notifications w))
    by (rewrite Hf; set_solver).
  apply list_elem_of_filter in Hin as [Hst Hin].
  rewrite Forall_forall in Hall. destruct (Hall r Hin) as (_ & Hbad & _).
  rewrite (rows_to_notifications_raises (r :: rows) r); [done|set_solver|auto].
Qed.

Lemma run_op_store_ok o w : store_ok w → store_ok (run_op o w).
Proof.
  intros Hok. destruct o as [n|ns|id|]; simpl.
  - by apply send_notification_store_ok.
  - unfold run, batch_send. rewrite batch_send_from_eq. simpl.
    by apply run_sends_store_ok.
  - by apply mark_read_store_ok.
  - unfold run. by rewrite retry_failed_store_ok.
Qed.

Lemma reachable_store_ok w : reachable w → store_ok w.
Proof.
  induction 1 as [clk|o w _ IH].
  - split; simpl; constructor.
  - by apply run_op_store_ok.
Qed.

Lemma rows_with_id_unique w r :
  NoDup (map row_id (notifications w)) → r ∈ notifications w →
  rows_with_id (row_id r) w = [r].
Proof.
  unfold rows_with_id. generalize (notifications w) as tbl. clear w.
  induction tbl as [|x tbl IH]; intros Hnd Hin; [by apply elem_of_nil in Hin|].
  simpl in Hnd. apply NoDup_cons in Hnd as [Hx Hnd].
  apply elem_of_cons in Hin as [->|Hin].
  - rewrite filter_cons_True by done. f_equal.
    clear IH Hnd. induction tbl as [|y tbl IH]; [done|].
    simpl in Hx. apply not_elem_of_cons in Hx as [Hne Hx].
    rewrite filter_cons_False by congruence. auto.
  - rewrite filter_cons_False; [auto|].
    intros Heq. apply Hx. rewrite Heq. apply list_elem_of_fmap. eauto.
Qed.

(** An id identifies at most one stored row. *)
Lemma reachable_id_unique w id :
  reachable w → (length (rows_with_id id w) ≤ 1)%nat.
Proof.
  intros Hreach. apply reachable_store_ok in Hreach as [Hnd _].
  destruct (rows_with_id id w) as [|r rows] eqn:Hrows; [simpl; lia|].
  assert (Hin : r ∈ rows_with_id id w) by (rewrite Hrows; set_solver).
  unfold rows_with_id in Hin. apply list_elem_of_filter in Hin as [<- Hin].
  rewrite (rows_with_id_unique w r Hnd Hin) in Hrows.
  injection Hrows as <-. simpl. lia.
Qed.

(** A stored FAILED notification cannot be read back: in the states the API
    can reach, a FAILED row always carries a channel outside the
    enumeration. *)
Lemma failed_notification_never_decodes w r :
  reachable w → r ∈ notifications w → row_status r = "failed" →
  (row_channel r ∉ valid_channels) ∧
  get_notification (row_id r) w = (Raise ValueError, w).
Proof.
  intros Hreach Hin Hst. apply reachable_store_ok in Hreach as [Hnd Hall].
  rewrite Forall_forall in Hall. destruct (Hall r Hin) as (_ & Hbad & _).
  split; [auto|].
  rewrite get_notification_eq, (rows_with_id_unique w r Hnd Hin). simpl.
  rewrite row_to_notification_invalid_channel by auto. done.
Qed.

(** C2, as the code behaves: once [send_notification] has stored a FAILED
    notification (one whose channel is outside the enumeration),
    [retry_failed] raises [ValueError] while loading the FAILED rows; nothing
    is retried and the state is left as it was. *)
Theorem retry_failed_raises_on_failed_row (n : Notification) (w : World) :
  ¬ channel_is_valid (n_channel n) →
  let w' := run (send_notification n) w in
  status_of (n_id n) w' = Some "failed" ∧
  retry_failed w' = (Raise ValueError, w').
Proof.
  intros Hinvalid w'.
  assert (Hrow : written_row n w = notification_row n FAILED None).
  { unfold written_row. by rewrite channel_invalid_false. }
  split.
  - unfold status_of. subst w'. by rewrite rows_with_id_send_same, Hrow.
  - rewrite retry_failed_eq.
    rewrite (rows_to_notifications_raises _ (written_row n w)); [done| |].
    + apply list_elem_of_filter. split; [by rewrite Hrow|].
      subst w'. rewrite run_send_notification. simpl.
      unfold insert_or_replace. set_solver.
    + rewrite Hrow. exact Hinvalid.
Qed.

Lemma retry_failed_raises_on_failed_row_witness :
  retry_failed (run (send_notification sample_sms) sample_world)
  = (Raise ValueError, run (send_notification sample_sms) sample_world).
Proof.
  exact (proj2 (retry_failed_raises_on_failed_row sample_sms sample_world
                  sample_sms_invalid)).
Defined.

(** The loop itself: every element is re-sent with its [retry_count] raised
    by one, and the result counts the sends that succeeded. *)
Lemma retry_loop_eq ns : ∀ count w,
  retry_loop ns count w =
    (Ok (count + Z.of_nat (length (filter (λ n, channel_is_valid (n_channel n)) ns))),
     run_sends (map bump_retry_count ns) w).
Proof.
  induction ns as [|n ns IH]; intros count w.
  - simpl. unfold mret, M_ret. do 2 f_equal. lia.
  - simpl. unfold mbind, M_bind. rewrite send_notification_eq.
    rewrite IH. unfold run_sends at 2. simpl. rewrite run_send_notification.
    f_equal. f_equal. simpl.
    destruct (decide (channel_is_valid (n_channel n))) as [Hv|Hv].
    + rewrite channel_valid_true, filter_cons_True by done. simpl. lia.
    + rewrite channel_invalid_false, filter_cons_False by done. done.
Qed.

Lemma rows_with_id_run_sends_notin ns : ∀ w id,
  id ∉ map n_id ns → rows_with_id id (run_sends ns w) = rows_with_id id w.
Proof.
  induction ns as [|n ns IH]; intros w id Hnotin; [done|].
  simpl in Hnotin. apply not_elem_of_cons in Hnotin as [Hne Hnotin].
  unfold run_sends in *. simpl. rewrite IH by done.
  by apply rows_with_id_send_other.
Qed.

(** After a sequence of sends, the stored row of an id is the one written by
    the last send issued for it. *)
Lemma rows_with_id_run_sends_last pre n post w :
  n_id n ∉ map n_id post →
  rows_with_id (n_id n) (run_sends (pre ++ n :: post) w)
  = [written_row n (run_sends pre w)].
Proof.
  intros Hnotin. rewrite run_sends_app.
  change (run_sends (n :: post) (run_sends pre w))
    with (run_sends post (run (send_notification n) (run_sends pre w))).
  rewrite rows_with_id_run_sends_notin by done.
  apply rows_with_id_send_same.
Qed.

Lemma filter_all {A} (P : A → Prop) `{∀ x, Decision (P x)} (l : list A) :
  Forall P l → filter P l = l.
Proof.
  induction 1 as [|x l Hx _ IH]; [done|]. by rewrite filter_cons_True, IH.
Qed.



(* ------------------------------------------------------------------------ *)
(** * The [sent_at] column *)

Lemma sent_at_of_send_same n w :
  sent_at_of (n_id n) (run (send_notification n) w)
  = Some (if bool_decide (channel_is_valid (n_channel n))
          then Some (clock w (S (ticks w))) else None).
Proof.
  unfold sent_at_of. rewrite rows_with_id_send_same. simpl.
  unfold written_row. by destruct (bool_decide _).
Qed.

Lemma sent_at_of_send_other n w id :
  id ≠ n_id n → sent_at_of id (run (send_notification n) w) = sent_at_of id w.
Proof. intros Hne. unfold sent_at_of. by rewrite rows_with_id_send_other. Qed.

Lemma sent_at_of_mark_read id' w id :
  sent_at_of id (run (mark_read id') w) = sent_at_of id w.
Proof.
  unfold sent_at_of. rewrite rows_with_id_mark_read.
  destruct (rows_with_id id w) as [|r rows]; [done|]. simpl.
  by rewrite mark_row_sent_at.
Qed.

Lemma sent_at_set_means_delivered w id t :
  reachable w → sent_at_of id w = Some (Some t) →
  ∃ r, head (rows_with_id id w) = Some r ∧ row_channel r ∈ valid_channels ∧
       (row_status r = "sent" ∨ row_status r = "read").
Proof.
  intros Hreach Hsent. apply reachable_store_ok in Hreach as [_ Hall].
  unfold sent_at_of in Hsent.
  destruct (head (rows_with_id id w)) as [r|] eqn:Hhead; [|discriminate].
  simpl in Hsent. injection Hsent as Hsent.
  exists r. split; [done|].
  assert (Hin : r ∈ notifications w).
  { apply head_Some_elem_of in Hhead. unfold rows_with_id in Hhead.
    by apply list_elem_of_filter in Hhead as [_ ?]. }
  rewrite Forall_forall in Hall. destruct (Hall r Hin) as (Hst & Hf & _ & Hs).
  assert (Hv : row_channel r ∈ valid_channels) by (apply Hs; by rewrite Hsent).
  split; [done|].
  rewrite !elem_of_cons, elem_of_nil in Hst.
  destruct Hst as [?|[Hfail|[?|[]]]]; auto. by destruct (Hf Hfail).
Qed.

(** C3 as stated fails: a second send of a stored, delivered notification
    replaces its [sent_at] by the time of the new send, and a second send
    with a channel outside the enumeration resets it to NULL. *)
Lemma resend_overwrites_sent_at :
  let w1 := run_op (OpSend sample_email) sample_world in
  reachable w1 ∧
  sent_at_of "n-1" w1 = Some (Some 1700000000000250) ∧
  sent_at_of "n-1" (run_op (OpSend sample_email) w1) = Some (Some 1700000000001000) ∧
  sent_at_of "n-1" (run_op (OpSend sample_email_sms) w1) = Some None ∧
  sent_at_of "n-1" (run_op (OpSend sample_email) w1) ≠ sent_at_of "n-1" w1.
Proof.
  split; [apply reachable_step, reachable_fresh|].
  vm_compute. repeat split; congruence.
Qed.

(** C3, amended: in every state the API can reach, a stored notification has
    a non-null [sent_at] only if its channel is valid and its status is SENT
    or READ, that is, only after a successful delivery; [mark_read] never
    changes [sent_at], nor does a send of another id; a send of the same id
    overwrites it with the time of that send when it succeeds and with NULL
    when it fails. *)
Theorem sent_at_written_by_each_send :
  (∀ w id t, reachable w → sent_at_of id w = Some (Some t) →
     ∃ r, head (rows_with_id id w) = Some r ∧ row_channel r ∈ valid_channels ∧
          (row_status r = "sent" ∨ row_status r = "read")) ∧
  (∀ id' w id, sent_at_of id (run (mark_read id') w) = sent_at_of id w) ∧
  (∀ n w id, id ≠ n_id n →
     sent_at_of id (run (send_notification n) w) = sent_at_of id w) ∧
  (∀ n w, sent_at_of (n_id n) (run (send_notification n) w)
          = Some (if bool_decide (channel_is_valid (n_channel n))
                  then Some (clock w (S (ticks w))) else None)).
Proof.
  split; [exact sent_at_set_means_delivered|].
  split; [exact sent_at_of_mark_read|].
  split; [exact sent_at_of_send_other|exact sent_at_of_send_same].
Qed.

Lemma sent_at_written_by_each_send_witness :
  sent_at_of "n-1"
    (run (send_notification sample_sms) (run (send_notification sample_email) sample_world))
  = sent_at_of "n-1" (run (send_notification sample_email) sample_world).
Proof.
  refine (proj1 (proj2 (proj2 sent_at_written_by_each_send)) sample_sms _ "n-1" _).
  vm_compute. discriminate.
Defined.

(* ------------------------------------------------------------------------ *)
(** * [notification_stats] *)

Lemma attempts_in_scope_eq channel (log : list DeliveryRow) :
  (if truthy channel then filter (λ d, Some (dl_channel d) = channel) log else log)
  = attempts_in_scope channel log.
Proof.
  destruct channel as [c|]; simpl; [|done].
  case_bool_decide as Hc; case_decide; try done.
  apply list_filter_iff. intros d. split; congruence.
Qed.

Lemma successful_in_scope_eq channel (log : list DeliveryRow) :
  (if truthy channel
   then filter (λ d, Some (dl_channel d) = channel ∧ dl_success d = 1) log
   else filter (λ d, dl_success d = 1) log)
  = filter (λ d, dl_success d = 1) (attempts_in_scope channel log).
Proof.
  destruct channel as [c|]; simpl; [|done].
  case_bool_decide as Hc; case_decide; try done.
  rewrite list_filter_filter. apply list_filter_iff. intros d.
  split; [intros [[= ->] ?]; done|intros [? ->]; done].
Qed.

(** C9: [notification_stats] never raises; it counts the delivery attempts
    and the successful ones over the delivery log, restricted to the filter
    channel when one is given (a non-empty string); it reports
    [delivery_success_rate_pct] as exactly 0.0 when there is no attempt, and
    as [round(successful_deliveries / total_delivery_attempts * 100, 2)]
    otherwise. *)
Theorem notification_stats_success_rate (channel : option string) (w : World) :
  ∃ st,
    notification_stats channel w = (Ok st, w) ∧
    filter_channel st = channel ∧
    total_delivery_attempts st
      = Z.of_nat (length (attempts_in_scope channel (delivery_log w))) ∧
    successful_deliveries st
      = Z.of_nat (length (filter (λ d, dl_success d = 1)
                                 (attempts_in_scope channel (delivery_log w)))) ∧
    delivery_success_rate_pct st
      = if decide (total_delivery_attempts st = 0) then S754_zero false
        else success_rate_pct (successful_deliveries st) (total_delivery_attempts st).
Proof.
  unfold notification_stats, count_rows. run_M.
  rewrite attempts_in_scope_eq, successful_in_scope_eq.
  set (total := Z.of_nat (length (attempts_in_scope channel (delivery_log w)))).
  set (successful := Z.of_nat (length (filter _ (attempts_in_scope channel (delivery_log w))))).
  destruct (decide (total ≠ 0)) as [Hnz|Hz].
  - unfold int_truediv. rewrite decide_False by done.
    eexists. split; [reflexivity|]. simpl.
    rewrite decide_False by done. done.
  - eexists. split; [reflexivity|]. simpl.
    rewrite decide_True by (by destruct (decide (total = 0)); [|exfalso; auto]).
    done.
Qed.

(* ------------------------------------------------------------------------ *)
(** * [_simple_render] *)

Lemma after2_Some a b s rest :
  after2 a b s = Some rest ↔ s = String a (String b rest).
Proof.
  unfold after2. destruct s as [|x [|y s]]; try (split; [discriminate|congruence]).
  destruct (Ascii.eqb_spec x a) as [->|Hx]; simpl.
  - destruct (Ascii.eqb_spec y b) as [->|Hy]; split; congruence.
  - split; [discriminate|congruence].
Qed.

Lemma after2_None a b s :
  after2 a b s = None → ∀ rest, s ≠ String a (String b rest).
Proof.
  intros Hnone rest Heq. apply after2_Some in Heq. congruence.
Qed.

Lemma length_append (s t : string) :
  String.length (s +:+ t) = (String.length s + String.length t)%nat.
Proof. induction s as [|c s IH]; simpl; [done|]. by rewrite IH. Qed.

Lemma find_close_Some u : ∀ inner rest,
  find_close u = Some (inner, rest) → closes_first inner rest u.
Proof.
  induction u as [|c u IH]; intros inner rest; simpl; [discriminate|].
  destruct (is_newline c) eqn:Hc; [discriminate|].
  destruct (after2 "}" "}" u) as [rest0|] eqn:Ha.
  - intros [= <- <-]. apply after2_Some in Ha as ->.
    split; [split; [done|split; [done|simpl; done]]|].
    intros inner' rest' (_ & Hne & _). destruct inner'; [done|simpl; lia].
  - destruct (find_close u) as [[inner0 rest0]|] eqn:Hf; [|discriminate].
    intros [= <- <-]. destruct (IH _ _ eq_refl) as [(Hu & Hne & Hnl) Hmin].
    split; [split; [exact (f_equal (String c) Hu)|split; [done|simpl; done]]|].
    intros inner' rest' (Hu' & Hne' & Hnl').
    destruct inner' as [|c' inner']; [done|]. simpl in Hu'. injection Hu' as -> Hu'.
    destruct inner' as [|c'' inner'].
    + simpl in Hu'. by destruct (after2_None _ _ _ Ha rest').
    + simpl. apply le_n_S. apply (Hmin (String c'' inner') rest').
      split; [done|split; [done|by destruct Hnl']].
Qed.

Lemma find_close_None u :
  find_close u = None → ∀ inner rest, ¬ closes inner rest u.
Proof.
  induction u as [|c u IH]; simpl.
  - intros _ inner rest (Hu & Hne & _). by destruct inner.
  - destruct (is_newline c) eqn:Hc.
    + intros _ inner rest (Hu & Hne & Hnl). destruct inner as [|c' inner]; [done|].
      simpl in Hu. injection Hu as <- _. destruct Hnl. congruence.
    + destruct (after2 "}" "}" u) as [rest0|] eqn:Ha; [discriminate|].
      destruct (find_close u) as [[inner0 rest0]|] eqn:Hf; [discriminate|].
      intros _ inner rest (Hu & Hne & Hnl).
      destruct inner as [|c' inner]; [done|]. simpl in Hu. injection Hu as -> Hu.
      destruct inner as [|c'' inner].
      * simpl in Hu. by destruct (after2_None _ _ _ Ha rest).
      * apply (IH eq_refl (String c'' inner) rest).
        split; [done|split; [done|by destruct Hnl]].
Qed.

Lemma match_here_Some s m rest :
  match_here s = Some (m, rest) →
  matches_at s (group1 m) rest ∧ group0 m = "{{" +:+ group1 m +:+ "}}" ∧
  (String.length rest < String.length s)%nat.
Proof.
  unfold match_here. destruct (after2 "{" "{" s) as [u|] eqn:Ha; [|discriminate].
  destruct (find_close u) as [[inner rest0]|] eqn:Hf; [|discriminate].
  intros [= <- <-]. simpl. apply after2_Some in Ha as ->.
  pose proof (find_close_Some _ _ _ Hf) as Hcl.
  split; [by exists u|]. split; [done|].
  destruct Hcl as [(-> & _ & _) _]. simpl. rewrite !length_append. simpl. lia.
Qed.

Lemma match_here_None s :
  match_here s = None → ∀ inner rest, ¬ matches_at s inner rest.
Proof.
  unfold match_here. intros Hnone inner rest (u & -> & Hcl & _).
  assert (Ha : after2 "{" "{" ("{{" +:+ u) = Some u) by (by apply after2_Some).
  rewrite Ha in Hnone.
  destruct (find_close u) as [[inner0 rest0]|] eqn:Hf; [discriminate|].
  by apply (find_close_None _ Hf inner rest).
Qed.

Lemma resolve_walks parts : ∀ v v',
  resolve parts v = Ok v' ↔ walks v parts v'.
Proof.
  induction parts as [|part rest IH]; intros v v'; simpl.
  - split; [intros [= ->]; constructor|by inversion 1].
  - split.
    + destruct v as [text items|text attrs]; unfold getitem, getattr;
        destruct (assoc part _) as [x|] eqn:Hx; try discriminate;
        intros Hr; apply IH in Hr; econstructor; eauto.
    + inversion 1 as [|text items p r x y Hx Hw|text attrs p r x y Hx Hw]; subst;
        unfold getitem, getattr; rewrite Hx; by apply IH.
Qed.

(** The loop raises nothing but what the handler of [replacer] catches. *)
Lemma resolve_raises parts : ∀ v e,
  resolve parts v = Raise e → e = KeyError ∨ e = AttributeError.
Proof.
  induction parts as [|part rest IH]; intros v e; simpl; [discriminate|].
  destruct v as [text items|text attrs]; unfold getitem, getattr;
    destruct (assoc part _) as [x|]; eauto; intros [= <-]; auto.
Qed.

Section Rendering.
Variable context : value.

Lemma replacer_output m :
  group0 m = "{{" +:+ group1 m +:+ "}}" →
  ∃ out, replacer context m = Ok out ∧ segment_output context (Hole (group1 m)) out.
Proof.
  intros Hg0. unfold replacer.
  destruct (resolve (split_dot (strip (group1 m))) context) as [v|e] eqn:Hr.
  - exists (py_str v). split; [done|]. left. exists v. split; [|done].
    by apply resolve_walks.
  - exists (group0 m).
    assert (Hnone : ∀ v, ¬ walks context (split_dot (strip (group1 m))) v).
    { intros v Hw. apply resolve_walks in Hw. congruence. }
    split.
    + by destruct (resolve_raises _ _ _ Hr) as [-> | ->].
    + right. split; [done|]. split; [done|]. by rewrite Hg0.
Qed.

Lemma re_sub_from_scans fuel : ∀ s,
  (String.length s ≤ fuel)%nat →
  ∃ segs outs,
    scans s segs ∧
    re_sub_from fuel (replacer context) s = Ok (join outs) ∧
    Forall2 (segment_output context) segs outs.
Proof.
  induction fuel as [|fuel IH]; intros s Hlen.
  - destruct s; [|simpl in Hlen; lia].
    exists [], []. repeat split; constructor.
  - destruct s as [|c s].
    { exists [], []. repeat split; constructor. }
    cbn [re_sub_from].
    destruct (match_here (String c s)) as [[m rest]|] eqn:Hm.
    + destruct (match_here_Some _ _ _ Hm) as (Hat & Hg0 & Hlt).
      destruct (replacer_output m Hg0) as (out & -> & Hout).
      destruct (IH rest) as (segs & outs & Hscan & -> & Hall);
        [simpl in *; lia|].
      exists (Hole (group1 m) :: segs), (out :: outs).
      split; [by eapply scans_hole|]. split; [done|]. by constructor.
    + destruct (IH s) as (segs & outs & Hscan & -> & Hall); [simpl in *; lia|].
      exists (Lit c :: segs), (String c EmptyString :: outs).
      split; [apply scans_lit; [by apply match_here_None|done]|].
      split; [done|]. by constructor.
Qed.

End Rendering.

Lemma append_assoc (a b c : string) : (a +:+ b) +:+ c = a +:+ (b +:+ c).
Proof.
  induction a as [|x a IH]; [done|].
  change (String x ((a +:+ b) +:+ c) = String x (a +:+ (b +:+ c))). by rewrite IH.
Qed.

(** The segments of a scan spell the template. *)
Lemma scans_text s segs : scans s segs → join (map segment_text segs) = s.
Proof.
  induction 1 as [|s inner rest segs Hat _ IH|c s segs _ _ IH].
  - done.
  - destruct Hat as (u & -> & (-> & _ & _) & _).
    change (segment_text (Hole inner) +:+ join (map segment_text segs)
            = "{{" +:+ inner +:+ "}}" +:+ rest).
    rewrite IH. unfold segment_text. by rewrite !append_assoc.
  - change (String c (join (map segment_text segs)) = String c s). by rewrite IH.
Qed.

Lemma append_inv_length (a b c d : string) :
  a +:+ b = c +:+ d → String.length a = String.length c → a = c ∧ b = d.
Proof.
  revert c. induction a as [|x a IH]; intros [|y c]; simpl; try done.
  intros [= -> Heq] [= Hlen]. destruct (IH c Heq Hlen) as [-> ->]. done.
Qed.

(** The scan of a template is unique. *)
Lemma scans_deterministic s segs1 :
  scans s segs1 → ∀ segs2, scans s segs2 → segs1 = segs2.
Proof.
  induction 1 as [|s inner rest segs Hat _ IH|c s segs Hno _ IH];
    intros segs2 H2.
  - inversion H2 as [|s' inner' rest' segs' (u & Heq & _)|]; subst; [done|].
    discriminate.
  - inversion H2 as [|s' inner' rest' segs' Hat' Hsc'|c' s' segs' Hno' Hsc']; subst.
    + destruct Hat as (u & Heq & _). discriminate.
    + destruct Hat as (u & -> & Hcl & Hmin).
      destruct Hat' as (u' & Heq & Hcl' & Hmin').
      change (String "{" (String "{" u) = String "{" (String "{" u')) in Heq.
      injection Heq as <-.
      pose proof (Hmin _ _ Hcl') as Hle. pose proof (Hmin' _ _ Hcl) as Hle'.
      destruct Hcl as (Hu & _). destruct Hcl' as (Hu' & _).
      rewrite Hu in Hu'.
      apply append_inv_length in Hu' as [-> Hr]; [|lia].
      change (String "}" (String "}" rest) = String "}" (String "}" rest')) in Hr.
      injection Hr as ->. f_equal. by apply IH.
    + by destruct (Hno' inner rest).
  - inversion H2 as [|s' inner' rest' segs' Hat' Hsc'|c' s' segs' Hno' Hsc']; subst.
    + by destruct (Hno inner' rest').
    + f_equal. by apply IH.
Qed.

(** C6: rendering never raises.  The template splits in one way into copied
    characters and placeholders; every placeholder is resolved on its own,
    by trimming its path, splitting it on dots and walking the context (key
    lookup in a mapping, attribute access otherwise); a placeholder whose
    path walks to a value is replaced by [str] of that value, and one whose
    path does not is left in the output exactly as written, never as an
    empty string, while the other segments are rendered all the same. *)
Theorem simple_render_placeholders (template : string) (context : value) :
  ∃ segs outs,
    scans template segs ∧
    (∀ segs', scans template segs' → segs' = segs) ∧
    join (map segment_text segs) = template ∧
    _simple_render template context = Ok (join outs) ∧
    Forall2 (segment_output context) segs outs.
Proof.
  destruct (re_sub_from_scans context (String.length template) template)
    as (segs & outs & Hscan & Hout & Hall); [done|].
  exists segs, outs. split; [done|]. split; [|split; [|split]].
  - intros segs' Hscan'. by apply (scans_deterministic template).
  - by apply scans_text.
  - exact Hout.
  - exact Hall.
Qed.

(** The template round trips of the specification. *)
Example render_hello text attrs :
  _simple_render "Hello {{name}}" (VDict text [("name", VObj "World" attrs)])
  = Ok "Hello World".
Proof. reflexivity. Qed.

Example render_missing text :
  _simple_render "{{missing}}" (VDict text []) = Ok "{{missing}}".
Proof. reflexivity. Qed.

Example render_dotted text text' attrs :
  _simple_render "{{user.name}}"
    (VDict text [("user", VDict text' [("name", VObj "Alice" attrs)])])
  = Ok "Alice".
Proof. reflexivity. Qed.

(** One placeholder fails, the others still resolve. *)
Example render_partial text :
  _simple_render "Hi {{ name }}, your ref is {{ref}} ({{name.first}})"
    (VDict text [("name", VObj "Bob" [])])
  = Ok "Hi Bob, your ref is {{ref}} ({{name.first}})".
Proof. reflexivity. Qed.

(* ------------------------------------------------------------------------ *)
(** * [str.strip] and [str.split] as used by [replacer] *)

Lemma lstrip_spec s :
  ∃ l, s = l +:+ lstrip s ∧ all_space l ∧ ¬ starts_with_space (lstrip s).
Proof.
  induction s as [|c s (l & Hs & Hl & Hn)]; simpl.
  - exists EmptyString. simpl. tauto.
  - destruct (is_space c) eqn:Hc.
    + exists (String c l). split; [exact (f_equal (String c) Hs)|]. simpl. tauto.
    + exists EmptyString. simpl. split; [done|]. split; [done|]. congruence.
Qed.

Lemma rstrip_spec s :
  ∃ r, s = rstrip s +:+ r ∧ all_space r ∧ ¬ ends_with_space (rstrip s) ∧
       (¬ starts_with_space s → ¬ starts_with_space (rstrip s)).
Proof.
  induction s as [|c s (r & Hs & Hr & Hn & _)]; simpl.
  - exists EmptyString. simpl. tauto.
  - destruct (rstrip s) as [|c' t] eqn:Ht.
    + destruct (is_space c) eqn:Hc.
      * exists (String c r). split; [exact (f_equal (String c) Hs)|]. simpl. tauto.
      * exists r. split; [exact (f_equal (String c) Hs)|].
        simpl. split; [done|]. split; [congruence|]. intros _. congruence.
    + exists r. split; [exact (f_equal (String c) Hs)|]. simpl. tauto.
Qed.

(** [strip] removes a run of whitespace at each end and nothing else. *)
Lemma strip_spec s :
  ∃ l r, s = l +:+ strip s +:+ r ∧ all_space l ∧ all_space r ∧
         ¬ starts_with_space (strip s) ∧ ¬ ends_with_space (strip s).
Proof.
  destruct (lstrip_spec s) as (l & Hs & Hl & Hn).
  destruct (rstrip_spec (lstrip s)) as (r & Hs' & Hr & Hn' & Hkeep).
  exists l, r. unfold strip. split; [by rewrite <- Hs'|]. auto.
Qed.

(** [split_dot] cuts at every dot and nowhere else. *)
Lemma split_dot_spec s :
  join_dot (split_dot s) = s ∧ Forall no_dot (split_dot s) ∧ split_dot s ≠ [].
Proof.
  induction s as [|c s (Hj & Hn & Hne)]; simpl.
  - split; [done|]. split; [by repeat constructor|done].
  - destruct (Ascii.eqb_spec c ".") as [->|Hc].
    + destruct (split_dot s) as [|p ps]; [done|].
      split; [exact (f_equal (String ".") Hj)|]. split; [by constructor|done].
    + destruct (split_dot s) as [|p ps]; [done|].
      apply Forall_cons in Hn as [Hp Hps].
      split; [|split; [by constructor|done]].
      destruct ps; exact (f_equal (String c) Hj).
Qed.

(* ------------------------------------------------------------------------ *)
(** * Concrete runs *)

Example retry_failed_on_inserted_row :
  (retry_failed inserted_failed_world).1 = Ok 1 ∧
  notifications (run retry_failed inserted_failed_world)
  = [mkRow "test-id" "t" "u@e.com" "S" "B" "email" "sent" (Some 1700000000000250)
           1699999999000000 "{}" 1].
Proof. vm_compute. done. Qed.

(** One delivered and one failed notification: two attempts, one success,
    50.0 percent; filtered on the failed channel, 0.0 percent. *)
Example stats_after_two_sends :
  let w := run_sends [sample_email; sample_sms] sample_world in
  (∃ st, (notification_stats None w).1 = Ok st ∧
         total_delivery_attempts st = 2 ∧ successful_deliveries st = 1 ∧
         delivery_success_rate_pct st = S754_finite false 7036874417766400 (-47)) ∧
  (∃ st, (notification_stats (Some "sms") w).1 = Ok st ∧
         total_delivery_attempts st = 1 ∧ successful_deliveries st = 0 ∧
         delivery_success_rate_pct st = S754_zero false) ∧
  (∃ st, (notification_stats None sample_world).1 = Ok st ∧
         total_delivery_attempts st = 0 ∧
         delivery_success_rate_pct st = S754_zero false).
Proof.
  split; [|split]; eexists; (split; [vm_compute; reflexivity|]); vm_compute; done.
Qed.

(** 33.33 and 12.35 as binary64 numbers: the second product is
    12.345000000000001, so it rounds up although 2469 / 20000 is an exact
    tie in decimal. *)
Example success_rate_one_third :
  success_rate_pct 1 3 = S754_finite false 4690780486883082 (-47).
Proof. vm_compute. reflexivity. Qed.

Example success_rate_near_tie :
  success_rate_pct 2469 20000 = S754_finite false 6952431924753203 (-49).
Proof. vm_compute. reflexivity. Qed.

(* ------------------------------------------------------------------------ *)
(** * The delivery log and the notifications table together *)

Lemma attempts_of_send n w id :
  attempts_of id (run (send_notification n) w)
  = attempts_of id w ++ (if decide (n_id n = id) then [delivery_row n w] else []).
Proof.
  unfold attempts_of. rewrite run_send_notification. cbn [delivery_log].
  by rewrite filter_app.
Qed.

Lemma attempts_of_mark_read id' w id :
  attempts_of id (run (mark_read id') w) = attempts_of id w.
Proof. unfold attempts_of, run. by rewrite mark_read_eq. Qed.

Lemma delivery_row_ok n w : attempt_ok (delivery_row n w).
Proof.
  unfold attempt_ok, delivery_row. simpl. case_bool_decide as H.
  - left. done.
  - right. done.
Qed.

Lemma send_notification_tables_ok n w :
  tables_ok w → tables_ok (run (send_notification n) w).
Proof.
  intros ((Hseq & Hids) & Hatt & Hrows & Horph).
  split; [|split; [|split]].
  - rewrite run_send_notification. split; simpl.
    + rewrite length_app. simpl. lia.
    + intros i d Hi. destruct (decide (i < length (delivery_log w))%nat) as [Hlt|Hge].
      * rewrite lookup_app_l in Hi by done. auto.
      * rewrite lookup_app_r in Hi by lia.
        destruct (i - length (delivery_log w))%nat as [|k] eqn:Hk; [|done].
        simpl in Hi. injection Hi as <-. simpl. lia.
  - rewrite run_send_notification. simpl. apply Forall_app. split; [done|].
    apply Forall_singleton, delivery_row_ok.
  - rewrite Forall_forall. intros r Hr.
    rewrite run_send_notification in Hr. simpl in Hr. unfold insert_or_replace in Hr.
    apply elem_of_app in Hr as [Hr|Hr].
    + apply list_elem_of_filter in Hr as [Hne Hr]. rewrite written_row_id in Hne.
      rewrite Forall_forall in Hrows. destruct (Hrows r Hr) as (d & Hlast & Hd).
      exists d. rewrite attempts_of_send, decide_False by congruence.
      by rewrite app_nil_r.
    + apply list_elem_of_singleton in Hr as ->.
      exists (delivery_row n w). rewrite written_row_id, attempts_of_send, decide_True by done.
      rewrite last_snoc. split; [done|]. split; [done|].
      unfold written_row, delivery_row. simpl. by case_bool_decide.
  - intros d Hd. rewrite run_send_notification in Hd. simpl in Hd.
    destruct (decide (dl_notification_id d = n_id n)) as [->|Hne].
    + by rewrite rows_with_id_send_same.
    + rewrite rows_with_id_send_other by done.
      apply elem_of_app in Hd as [Hd|Hd]; [auto|].
      apply list_elem_of_singleton in Hd as ->. done.
Qed.

Lemma mark_read_tables_ok id w : tables_ok w → tables_ok (run (mark_read id) w).
Proof.
  intros (Hlog & Hatt & Hrows & Horph).
  split; [|split; [|split]].
  - unfold run. rewrite mark_read_eq. exact Hlog.
  - unfold run. rewrite mark_read_eq. exact Hatt.
  - rewrite Forall_forall. intros r Hr.
    unfold run in Hr. rewrite mark_read_eq in Hr. simpl in Hr.
    apply list_elem_of_fmap in Hr as (r0 & -> & Hr0).
    rewrite Forall_forall in Hrows. destruct (Hrows r0 Hr0) as (d & Hlast & Hch & Hsent).
    exists d. rewrite mark_row_id, mark_row_channel, mark_row_sent_at, attempts_of_mark_read.
    done.
  - intros d Hd. rewrite rows_with_id_mark_read.
    assert (Hd' : d ∈ delivery_log w) by (unfold run in Hd; by rewrite mark_read_eq in Hd).
    specialize (Horph d Hd'). by destruct (rows_with_id _ w).
Qed.

Lemma run_sends_tables_ok ns : ∀ w, tables_ok w → tables_ok (run_sends ns w).
Proof.
  induction ns as [|n ns IH]; intros w Hok; [done|].
  apply (IH (run (send_notification n) w)). by apply send_notification_tables_ok.
Qed.

Lemma run_op_tables_ok o w : store_ok w → tables_ok w → tables_ok (run_op o w).
Proof.
  intros Hstore Hok. destruct o as [n|ns|id|]; simpl.
  - by apply send_notification_tables_ok.
  - unfold run, batch_send. rewrite batch_send_from_eq. simpl.
    by apply run_sends_tables_ok.
  - by apply mark_read_tables_ok.
  - unfold run. by rewrite retry_failed_store_ok.
Qed.

Lemma reachable_tables_ok w : reachable w → tables_ok w.
Proof.
  induction 1 as [clk|o w Hreach IH].
  - split; [split; [done|intros i d Hi; by destruct i]|].
    split; [constructor|]. split; [constructor|].
    intros d Hd. by apply elem_of_nil in Hd.
  - apply run_op_tables_ok; [by apply reachable_store_ok|done].
Qed.

Lemma sample_reachable : reachable (run_op (OpSend sample_email) sample_world).
Proof. apply reachable_step, reachable_fresh. Defined.

Lemma run_sends_keeps_ids ns : ∀ w id,
  rows_with_id id w ≠ [] → rows_with_id id (run_sends ns w) ≠ [].
Proof.
  induction ns as [|n ns IH]; intros w id Hne; [done|].
  apply (IH (run (send_notification n) w)).
  destruct (decide (id = n_id n)) as [->|Hid].
  - by rewrite rows_with_id_send_same.
  - by rewrite rows_with_id_send_other.
Qed.

Lemma run_retry_failed w :
  run retry_failed w = w ∨ ∃ ns, run retry_failed w = run_sends ns w.
Proof.
  unfold run. rewrite retry_failed_eq.
  destruct (rows_to_notifications _) as [ns|e]; [|by left].
  right. exists (map bump_retry_count ns). by rewrite retry_loop_eq.
Qed.

Lemma delivery_log_mark_read id w :
  delivery_log (run (mark_read id) w) = delivery_log w.
Proof. unfold run. by rewrite mark_read_eq. Qed.

(** X8: no operation deletes anything.  Every operation leaves the delivery
    log it found as a prefix of the new log, and an id that is stored is
    still stored afterwards. *)
Theorem operations_never_delete (o : op) (w : World) :
  (∃ rows, delivery_log (run_op o w) = delivery_log w ++ rows) ∧
  (∀ id, rows_with_id id w ≠ [] → rows_with_id id (run_op o w) ≠ []).
Proof.
  destruct o as [n|ns|id'|]; cbn [run_op].
  - split.
    + exists [delivery_row n w]. by rewrite run_send_notification.
    + intros id. apply (run_sends_keeps_ids [n]).
  - unfold run, batch_send. rewrite batch_send_from_eq. simpl. split.
    + destruct (run_sends_delivery_log ns w) as (rows & Hlog & _). eauto.
    + intros id. apply run_sends_keeps_ids.
  - split.
    + exists []. by rewrite delivery_log_mark_read, app_nil_r.
    + intros id Hne. rewrite rows_with_id_mark_read. by destruct (rows_with_id id w).
  - destruct (run_retry_failed w) as [->|[ns ->]].
    + split; [exists []; by rewrite app_nil_r|done].
    + split.
      * destruct (run_sends_delivery_log ns w) as (rows & Hlog & _). eauto.
      * intros id. apply run_sends_keeps_ids.
Qed.

(** X9: in every state the API can reach, the delivery-log ids are 1, 2,
    3, ... in insertion order, so they are distinct and increasing, and the
    AUTOINCREMENT counter equals the number of entries. *)
Theorem delivery_log_ids_consecutive (w : World) :
  reachable w →
  dl_seq w = Z.of_nat (length (delivery_log w)) ∧
  ∀ i d, delivery_log w !! i = Some d → dl_id d = Z.of_nat i + 1.
Proof. intros Hreach. by destruct (reachable_tables_ok w Hreach) as (? & _). Qed.

Lemma delivery_log_ids_consecutive_witness :
  dl_seq (run_op (OpSend sample_email) sample_world) = 1.
Proof.
  exact (proj1 (delivery_log_ids_consecutive _ sample_reachable)).
Defined.

(** X10: in every state the API can reach, a delivery-log entry records
    success 1 and no error message exactly when its channel is one of the
    four valid values; otherwise it records success 0 and the message
    "Unknown channel: " followed by the channel. *)
Theorem delivery_attempts_well_formed (w : World) (d : DeliveryRow) :
  reachable w → d ∈ delivery_log w →
  (dl_channel d ∈ valid_channels ∧ dl_success d = 1 ∧ dl_error_msg d = None) ∨
  ((dl_channel d ∉ valid_channels) ∧ dl_success d = 0 ∧
   dl_error_msg d = Some ("Unknown channel: " +:+ dl_channel d)).
Proof.
  intros Hreach Hin. destruct (reachable_tables_ok w Hreach) as (_ & Hatt & _).
  rewrite Forall_forall in Hatt. exact (Hatt d Hin).
Qed.

Lemma delivery_attempts_well_formed_witness :
  ∃ d, d ∈ delivery_log (run_op (OpSend sample_sms) sample_world) ∧
       dl_success d = 0 ∧ dl_error_msg d = Some "Unknown channel: sms".
Proof.
  exists (delivery_row sample_sms sample_world).
  assert (Hin : delivery_row sample_sms sample_world
                ∈ delivery_log (run_op (OpSend sample_sms) sample_world)).
  { vm_compute. apply list_elem_of_here. }
  split; [exact Hin|].
  destruct (delivery_attempts_well_formed _ _
              (reachable_step (OpSend sample_sms) _ (reachable_fresh sample_clock)) Hin)
    as [(Hv & _)|(_ & H0 & Hmsg)].
  - exfalso. revert Hv. refine (proj1 (bool_decide_eq_false _) _). vm_compute. reflexivity.
  - split; [exact H0|exact Hmsg].
Defined.

(** X11: in every state the API can reach, the two tables refer to each
    other: every delivery-log entry belongs to a stored notification, and
    every stored notification has at least one delivery-log entry. *)
Theorem no_orphans (w : World) :
  reachable w →
  (∀ d, d ∈ delivery_log w → rows_with_id (dl_notification_id d) w ≠ []) ∧
  (∀ r, r ∈ notifications w → attempts_of (row_id r) w ≠ []).
Proof.
  intros Hreach. destruct (reachable_tables_ok w Hreach) as (_ & _ & Hrows & Horph).
  split; [exact Horph|]. intros r Hr. rewrite Forall_forall in Hrows.
  destruct (Hrows r Hr) as (d & Hlast & _). intros Hnil. by rewrite Hnil in Hlast.
Qed.

Lemma no_orphans_witness :
  attempts_of "n-1" (run_op (OpSend sample_email) sample_world) ≠ [].
Proof.
  refine (proj2 (no_orphans _ sample_reachable) (written_row sample_email sample_world) _).
  vm_compute. apply list_elem_of_here.
Defined.

(** X12: in every state the API can reach, the latest delivery attempt of a
    stored notification was made on the stored channel, and the stored
    [sent_at] is the time of that attempt when it succeeded and NULL when it
    failed. *)
Theorem latest_attempt_matches_row (w : World) (r : NotificationRow) :
  reachable w → r ∈ notifications w →
  ∃ d, last (attempts_of (row_id r) w) = Some d ∧
       dl_channel d = row_channel r ∧
       row_sent_at r = (if decide (dl_success d = 1) then Some (dl_attempt_at d)
                        else None).
Proof.
  intros Hreach Hin. destruct (reachable_tables_ok w Hreach) as (_ & _ & Hrows & _).
  rewrite Forall_forall in Hrows. exact (Hrows r Hin).
Qed.

Lemma latest_attempt_matches_row_witness :
  ∃ d, last (attempts_of "n-1" (run_op (OpSend sample_email) sample_world)) = Some d ∧
       dl_channel d = "email".
Proof.
  assert (Hin : written_row sample_email sample_world
                ∈ notifications (run_op (OpSend sample_email) sample_world)).
  { vm_compute. apply list_elem_of_here. }
  destruct (latest_attempt_matches_row _ _ sample_reachable Hin) as (d & H1 & H2 & _).
  exists d. split; [exact H1|exact H2].
Defined.

(** X29: in every state the API can reach, an id is stored at most once and
    no stored notification has status PENDING: the status is SENT, FAILED or
    READ. *)
Theorem stored_rows_unique_and_never_pending (w : World) :
  reachable w →
  NoDup (map row_id (notifications w)) ∧
  ∀ r, r ∈ notifications w → row_status r ∈ ["sent"; "failed"; "read"].
Proof.
  intros Hreach. destruct (reachable_store_ok w Hreach) as [Hnd Hall].
  split; [done|]. intros r Hr. rewrite Forall_forall in Hall.
  by destruct (Hall r Hr) as (? & _).
Qed.

Lemma stored_rows_unique_and_never_pending_witness :
  NoDup (map row_id (notifications (run_op (OpSend sample_email) sample_world))).
Proof.
  exact (proj1 (stored_rows_unique_and_never_pending _ sample_reachable)).
Defined.

(* ------------------------------------------------------------------------ *)
(** * Reading notifications back *)

Lemma Channel_of_value_value c : Channel_of_value (Channel_value c) = Ok c.
Proof. by destruct c. Qed.

Lemma Channel_call_text x c :
  Channel_call x = Ok c → Channel_of_value (channel_text x) = Ok c.
Proof. destruct x as [c'|s]; simpl; [|done]. intros [= ->]. apply Channel_of_value_value. Qed.

Lemma Channel_call_Ok_valid x c : Channel_call x = Ok c → channel_is_valid x.
Proof.
  intros H. destruct (decide (channel_is_valid x)) as [|Hn]; [done|].
  rewrite Channel_call_spec, channel_invalid_false in H by done. discriminate.
Qed.

Lemma NotificationStatus_of_value_valid s :
  s ∈ valid_statuses →
  ∃ st, NotificationStatus_of_value s = Ok st ∧ NotificationStatus_value st = s.
Proof.
  unfold valid_statuses. rewrite !elem_of_cons, elem_of_nil.
  intros [->|[->|[->|[->|[]]]]]; eexists; split; reflexivity.
Qed.

Lemma NotificationStatus_of_value_invalid s :
  s ∉ valid_statuses → NotificationStatus_of_value s = Raise ValueError.
Proof.
  unfold valid_statuses. rewrite !elem_of_cons, elem_of_nil. intros H.
  unfold NotificationStatus_of_value.
  repeat (case_decide; [exfalso; apply H; tauto|]). reflexivity.
Qed.

(** X1: a notification sent on a valid channel is read back by
    [get_notification] with every field as it was sent, the channel as the
    enum member, status SENT and [sent_at] the time of the send. *)
Theorem send_then_get_returns_notification (n : Notification) (w : World) (c : Channel) :
  Channel_call (n_channel n) = Ok c → n_metadata n ≠ EmptyString →
  get_notification (n_id n) (run (send_notification n) w) =
    (Ok (Some (mkNotification (n_id n) (n_type n) (n_recipient n) (n_subject n)
                 (n_body n) (ChanMember c) SENT (Some (clock w (S (ticks w))))
                 (n_created_at n) (n_metadata n) (n_retry_count n))),
     run (send_notification n) w).
Proof.
  intros Hc Hmeta. pose proof (Channel_call_Ok_valid _ _ Hc) as Hv.
  rewrite get_notification_eq, rows_with_id_send_same. cbn [head].
  unfold written_row. rewrite channel_valid_true by done.
  unfold _row_to_notification, notification_row. cbn [row_channel row_status].
  rewrite (Channel_call_text _ _ Hc). simpl.
  by rewrite decide_False.
Qed.

Lemma send_then_get_returns_notification_witness :
  ∃ n', get_notification "n-1" (run (send_notification sample_email) sample_world)
        = (Ok (Some n'), run (send_notification sample_email) sample_world) ∧
        n_status n' = SENT ∧ n_metadata n' = "{}".
Proof.
  eexists. split.
  - refine (send_then_get_returns_notification sample_email sample_world EMAIL eq_refl _).
    vm_compute. discriminate.
  - split; reflexivity.
Defined.

Lemma row_to_notification_Ok_iff (r : NotificationRow) :
  ((∃ n, _row_to_notification r = Ok n) ↔
   row_channel r ∈ valid_channels ∧ row_status r ∈ valid_statuses) ∧
  (∀ e, _row_to_notification r = Raise e → e = ValueError).
Proof.
  split; [|intros e; apply row_to_notification_raises].
  unfold _row_to_notification. split.
  - intros [n Hn].
    destruct (Channel_of_value (row_channel r)) as [c|e] eqn:Hc; [|discriminate].
    destruct (Channel_of_value_Ok _ _ Hc) as [Hv _]. split; [done|].
    destruct (decide (row_status r ∈ valid_statuses)) as [|Hs]; [done|].
    rewrite (NotificationStatus_of_value_invalid _ Hs) in Hn. discriminate.
  - intros [Hc Hs].
    destruct (Channel_of_value_valid _ Hc) as (c & -> & _).
    destruct (NotificationStatus_of_value_valid _ Hs) as (st & -> & _). eauto.
Qed.

Lemma canonical_metadata_not_empty text :
  canonical_metadata text → text ≠ EmptyString.
Proof. intros (items & _ & ->). discriminate. Qed.

(** X2: [_row_to_notification] raises [ValueError] on a row whose channel is
    not one of the four channel values, and on a row whose status is not one
    of the four status values.  A notification it returns carries the row's
    channel and status as the members of those values.  On a row whose
    channel and status are such values and whose metadata is the JSON text
    of a dict of strings, or is empty, it returns a notification, holding
    that dict, or the empty dict for the empty text. *)
Theorem row_decoding_enumerated_values (r : NotificationRow) :
  (row_channel r ∉ valid_channels → _row_to_notification r = Raise ValueError) ∧
  (row_status r ∉ valid_statuses → _row_to_notification r = Raise ValueError) ∧
  (∀ n, _row_to_notification r = Ok n →
        row_channel r ∈ valid_channels ∧ row_status r ∈ valid_statuses ∧
        channel_text (n_channel n) = row_channel r ∧
        NotificationStatus_value (n_status n) = row_status r) ∧
  (row_channel r ∈ valid_channels → row_status r ∈ valid_statuses →
   (canonical_metadata (row_metadata r) →
    ∃ n, _row_to_notification r = Ok n ∧ n_metadata n = row_metadata r) ∧
   (row_metadata r = EmptyString →
    ∃ n, _row_to_notification r = Ok n ∧
         n_metadata n = json_dumps_str_dict [])).
Proof.
  split; [apply row_to_notification_invalid_channel|].
  split.
  { intros Hs. unfold _row_to_notification.
    destruct (Channel_of_value (row_channel r)) as [c|e] eqn:Hc.
    - by rewrite (NotificationStatus_of_value_invalid _ Hs).
    - f_equal. apply (row_to_notification_raises r). unfold _row_to_notification.
      by rewrite Hc. }
  split.
  { intros n Hn.
    destruct (proj1 (proj1 (row_to_notification_Ok_iff r)) (ex_intro _ n Hn)) as [Hc Hs].
    split; [done|]. split; [done|].
    unfold _row_to_notification in Hn.
    destruct (Channel_of_value_valid _ Hc) as (c & Hc' & Hcv).
    destruct (NotificationStatus_of_value_valid _ Hs) as (st & Hst' & Hsv).
    rewrite Hc', Hst' in Hn. injection Hn as <-. by simpl. }
  intros Hc Hs. unfold _row_to_notification.
  destruct (Channel_of_value_valid _ Hc) as (c & -> & _).
  destruct (NotificationStatus_of_value_valid _ Hs) as (st & -> & _).
  split.
  - intros Hcanon. eexists. split; [reflexivity|]. simpl.
    by rewrite decide_False by by apply canonical_metadata_not_empty.
  - intros Hempty. eexists. split; [reflexivity|]. simpl.
    by rewrite decide_True by done.
Qed.

(** X3: on a row whose metadata is the JSON text of a dict of strings,
    decoding the row and writing the decoded notification back with its own
    status and [sent_at] gives the same row. *)
Theorem row_decode_encode_round_trip (r : NotificationRow) (n : Notification) :
  canonical_metadata (row_metadata r) →
  _row_to_notification r = Ok n →
  notification_row n (n_status n) (n_sent_at n) = r.
Proof.
  unfold _row_to_notification. intros Hmeta Hn.
  apply canonical_metadata_not_empty in Hmeta.
  destruct (Channel_of_value (row_channel r)) as [c|e] eqn:Hc; [|discriminate].
  destruct (NotificationStatus_of_value (row_status r)) as [st|e] eqn:Hs; [|discriminate].
  injection Hn as <-. destruct (Channel_of_value_Ok _ _ Hc) as [_ Hcv].
  assert (Hsv : NotificationStatus_value st = row_status r).
  { destruct (decide (row_status r ∈ valid_statuses)) as [Hin|Hout].
    - destruct (NotificationStatus_of_value_valid _ Hin) as (st' & Hst' & <-). congruence.
    - rewrite (NotificationStatus_of_value_invalid _ Hout) in Hs. discriminate. }
  unfold notification_row. simpl. rewrite Hcv, Hsv, decide_False by done.
  by destruct r.
Qed.

Lemma row_decode_encode_round_trip_witness :
  ∃ n, _row_to_notification sample_metadata_row = Ok n ∧
       notification_row n (n_status n) (n_sent_at n) = sample_metadata_row.
Proof.
  eexists. split; [reflexivity|].
  refine (row_decode_encode_round_trip sample_metadata_row _ _ eq_refl).
  exists sample_metadata_items. split; [|reflexivity].
  vm_compute. repeat constructor; set_solver.
Defined.

(** X4: [get_notification] never changes the state; on an id that is not
    stored it returns None; what it returns carries the id asked for; and it
    raises nothing but [ValueError]. *)
Theorem get_notification_outcomes (id : string) (w : World) :
  (get_notification id w).2 = w ∧
  (rows_with_id id w = [] → (get_notification id w).1 = Ok None) ∧
  (∀ n, (get_notification id w).1 = Ok (Some n) → n_id n = id) ∧
  (∀ e, (get_notification id w).1 = Raise e → e = ValueError).
Proof.
  rewrite get_notification_eq.
  destruct (head (rows_with_id id w)) as [r|] eqn:Hhead.
  - assert (Hid : row_id r = id).
    { apply head_Some_elem_of in Hhead. unfold rows_with_id in Hhead.
      by apply list_elem_of_filter in Hhead as [? _]. }
    destruct (_row_to_notification r) as [n|e] eqn:Hr; simpl.
    + split; [done|]. split; [intros Hnil; by rewrite Hnil in Hhead|].
      split; [|done]. intros n' [= <-].
      by destruct (row_to_notification_Ok _ _ Hr) as (_ & -> & _).
    + split; [done|]. split; [intros Hnil; by rewrite Hnil in Hhead|].
      split; [done|]. intros e' [= <-]. by apply (row_to_notification_raises r).
  - simpl. done.
Qed.

(* ------------------------------------------------------------------------ *)
(** * [get_unread], [mark_read] and [get_delivery_log] *)

#[global] Instance created_desc_trans : Transitive created_desc.
Proof. unfold created_desc. intros a b c ??. lia. Qed.

#[global] Instance created_desc_total : Total created_desc.
Proof. unfold created_desc. intros a b. lia. Qed.

#[global] Instance attempt_desc_trans : Transitive attempt_desc.
Proof. unfold attempt_desc. intros a b c ??. lia. Qed.

#[global] Instance attempt_desc_total : Total attempt_desc.
Proof. unfold attempt_desc. intros a b. lia. Qed.

Lemma rows_to_notifications_all rows :
  Forall (λ r, ∃ n, _row_to_notification r = Ok n) rows →
  ∃ ns, rows_to_notifications rows = Ok ns ∧
        Forall2 (λ r n, _row_to_notification r = Ok n) rows ns.
Proof.
  induction 1 as [|r rows [n Hn] _ (ns & Hns & Hall)].
  - exists []. split; [done|constructor].
  - exists (n :: ns). simpl. rewrite Hn, Hns. split; [done|by constructor].
Qed.

Lemma get_unread_eq recipient w :
  get_unread recipient w =
    (rows_to_notifications
       (merge_sort created_desc
          (filter (λ r, row_recipient r = recipient ∧ row_status r = "sent")
                  (notifications w))), w).
Proof. unfold get_unread, select_notifications_by_recipient. run_M. done. Qed.

Lemma sent_row_decodes r n :
  _row_to_notification r = Ok n → row_status r = "sent" → n_status n = SENT.
Proof.
  unfold _row_to_notification. intros Hn Hs. rewrite Hs in Hn.
  destruct (Channel_of_value (row_channel r)); [|discriminate].
  simpl in Hn. by injection Hn as <-.
Qed.

Lemma row_to_notification_recipient r n :
  _row_to_notification r = Ok n → n_recipient n = row_recipient r.
Proof.
  unfold _row_to_notification. intros Hn.
  destruct (Channel_of_value (row_channel r)); [|discriminate].
  destruct (NotificationStatus_of_value (row_status r)); [|discriminate].
  by injection Hn as <-.
Qed.

Lemma decoded_sent_rows recipient rows ns :
  Forall2 (λ r n, _row_to_notification r = Ok n) rows ns →
  Forall (λ r, row_recipient r = recipient ∧ row_status r = "sent") rows →
  Forall (λ n, n_status n = SENT ∧ n_recipient n = recipient) ns.
Proof.
  induction 1 as [|r n rows ns Hrn _ IH]; intros Hall; [constructor|].
  apply Forall_cons in Hall as [[Hrec Hst] Hall]. constructor; [|auto].
  split; [by eapply sent_row_decodes|].
  by rewrite (row_to_notification_recipient _ _ Hrn).
Qed.

Lemma get_unread_store_ok recipient w :
  store_ok w →
  ∃ rows ns,
    get_unread recipient w = (Ok ns, w) ∧
    Forall2 (λ r n, _row_to_notification r = Ok n) rows ns ∧
    rows ≡ₚ filter (λ r, row_recipient r = recipient ∧ row_status r = "sent")
                   (notifications w) ∧
    StronglySorted created_desc rows ∧
    Forall (λ n, n_status n = SENT ∧ n_recipient n = recipient) ns.
Proof.
  intros [_ Hall]. rewrite get_unread_eq.
  set (sel := filter _ (notifications w)).
  set (rows := merge_sort created_desc sel).
  assert (Hperm : rows ≡ₚ sel) by apply merge_sort_Permutation.
  assert (Hin : ∀ r, r ∈ rows →
            r ∈ notifications w ∧ row_recipient r = recipient ∧ row_status r = "sent").
  { intros r Hr. rewrite Hperm in Hr. unfold sel in Hr.
    apply list_elem_of_filter in Hr as [[? ?] ?]. done. }
  destruct (rows_to_notifications_all rows) as (ns & Hns & Hdec).
  { rewrite Forall_forall. intros r Hr. destruct (Hin r Hr) as (Hr' & _ & Hst).
    rewrite Forall_forall in Hall. destruct (Hall r Hr') as (_ & _ & Hvalid & _).
    apply (proj2 (proj1 (row_to_notification_Ok_iff r))).
    split; [auto|]. rewrite Hst. unfold valid_statuses. set_solver. }
  exists rows, ns. rewrite Hns. split; [done|]. split; [done|]. split; [done|].
  split; [apply StronglySorted_merge_sort; apply _|].
  apply (decoded_sent_rows recipient rows ns Hdec).
  rewrite Forall_forall. intros r Hr. by destruct (Hin r Hr) as (_ & ? & ?).
Qed.

(** X5: in every state the API can reach, [get_unread] does not raise and
    leaves the state alone; it returns the decoded rows of exactly the
    stored notifications of that recipient whose status is SENT, newest
    [created_at] first. *)
Theorem get_unread_lists_sent_newest_first (recipient : string) (w : World) :
  reachable w →
  ∃ rows ns,
    get_unread recipient w = (Ok ns, w) ∧
    Forall2 (λ r n, _row_to_notification r = Ok n) rows ns ∧
    rows ≡ₚ filter (λ r, row_recipient r = recipient ∧ row_status r = "sent")
                   (notifications w) ∧
    StronglySorted created_desc rows ∧
    Forall (λ n, n_status n = SENT ∧ n_recipient n = recipient) ns.
Proof. intros Hreach. by apply get_unread_store_ok, reachable_store_ok. Qed.

Lemma get_unread_lists_sent_newest_first_witness :
  ∃ ns, get_unread "alice@example.com" (run_op (OpSend sample_email) sample_world)
        = (Ok ns, run_op (OpSend sample_email) sample_world).
Proof.
  destruct (get_unread_lists_sent_newest_first "alice@example.com" _ sample_reachable)
    as (rows & ns & H & _).
  exists ns. exact H.
Defined.

Lemma Forall2_decoded_ids rows ns :
  Forall2 (λ r n, _row_to_notification r = Ok n) rows ns →
  map n_id ns = map row_id rows.
Proof.
  induction 1 as [|r n rows ns Hrn _ IH]; [done|]. simpl.
  destruct (row_to_notification_Ok _ _ Hrn) as (_ & -> & _). by rewrite IH.
Qed.

(** X6: in every state the API can reach, once [mark_read] has run on an
    id, the unread list of any recipient no longer contains that id. *)
Theorem mark_read_removes_from_unread (id recipient : string) (w : World) :
  reachable w →
  ∃ ns, get_unread recipient (run (mark_read id) w) = (Ok ns, run (mark_read id) w) ∧
        id ∉ map n_id ns.
Proof.
  intros Hreach. pose proof (reachable_store_ok w Hreach) as Hok.
  destruct (get_unread_store_ok recipient (run (mark_read id) w))
    as (rows & ns & Hget & Hdec & Hperm & _); [by apply mark_read_store_ok|].
  exists ns. split; [done|].
  rewrite (Forall2_decoded_ids _ _ Hdec). intros Hin.
  apply list_elem_of_fmap in Hin as (r & Hid & Hr).
  rewrite Hperm in Hr. apply list_elem_of_filter in Hr as [[_ Hst] Hr].
  unfold run in Hr. rewrite mark_read_eq in Hr. simpl in Hr.
  apply list_elem_of_fmap in Hr as (r0 & -> & Hr0).
  rewrite mark_row_id in Hid.
  destruct Hok as [_ Hall]. rewrite Forall_forall in Hall.
  destruct (Hall r0 Hr0) as (Hst0 & _).
  rewrite mark_row_selected in Hst; [discriminate|done|].
  intros Hp. rewrite Hp in Hst0. set_solver.
Qed.

Lemma mark_read_removes_from_unread_witness :
  ∃ ns, get_unread "alice@example.com"
          (run (mark_read "n-1") (run_op (OpSend sample_email) sample_world))
        = (Ok ns, run (mark_read "n-1") (run_op (OpSend sample_email) sample_world)) ∧
        "n-1" ∉ map n_id ns.
Proof.
  exact (mark_read_removes_from_unread "n-1" "alice@example.com" _ sample_reachable).
Defined.

(** X7: in every state the API can reach, [mark_read] returns true exactly
    when the id is stored, and then leaves it with status READ; rows of
    other ids and the delivery log are not touched. *)
Theorem mark_read_true_iff_stored (id : string) (w : World) :
  reachable w →
  (mark_read id w).1 = Ok (bool_decide (rows_with_id id w ≠ [])) ∧
  (rows_with_id id w ≠ [] → status_of id (run (mark_read id) w) = Some "read") ∧
  (∀ id', id' ≠ id → rows_with_id id' (run (mark_read id) w) = rows_with_id id' w) ∧
  delivery_log (run (mark_read id) w) = delivery_log w.
Proof.
  intros Hreach. destruct (reachable_store_ok w Hreach) as [_ Hall].
  rewrite Forall_forall in Hall.
  assert (Hnp : ∀ r, r ∈ rows_with_id id w → row_id r = id ∧ row_status r ≠ "pending").
  { intros r Hr. unfold rows_with_id in Hr. apply list_elem_of_filter in Hr as [Hid Hr].
    split; [done|]. destruct (Hall r Hr) as (Hst & _). intros Hp. rewrite Hp in Hst.
    set_solver. }
  split; [|split; [|split]].
  - rewrite mark_read_eq. cbn [fst]. apply f_equal, bool_decide_ext.
    rewrite (filter_all (λ r, row_status r ≠ "pending") (rows_with_id id w))
      by (rewrite Forall_forall; intros r Hr; by destruct (Hnp r Hr)).
    destruct (rows_with_id id w) as [|r rows]; simpl; split; (done || lia).
  - intros Hne. unfold status_of. rewrite rows_with_id_mark_read.
    destruct (rows_with_id id w) as [|r rows] eqn:Hrows; [done|]. simpl.
    destruct (Hnp r) as [Hid Hst]; [set_solver|].
    by rewrite mark_row_selected.
  - intros id' Hne. rewrite rows_with_id_mark_read.
    assert (Hoth : Forall (λ r, row_id r ≠ id) (rows_with_id id' w)).
    { rewrite Forall_forall. intros r Hr. unfold rows_with_id in Hr.
      apply list_elem_of_filter in Hr as [-> _]. done. }
    induction Hoth as [|r rows Hr _ IH]; [done|]. simpl.
    by rewrite mark_row_other, IH.
  - apply delivery_log_mark_read.
Qed.

Lemma mark_read_true_iff_stored_witness :
  (mark_read "n-1" (run_op (OpSend sample_email) sample_world)).1 = Ok true ∧
  (mark_read "n-9" (run_op (OpSend sample_email) sample_world)).1 = Ok false.
Proof.
  split.
  - exact (proj1 (mark_read_true_iff_stored "n-1" _ sample_reachable)).
  - exact (proj1 (mark_read_true_iff_stored "n-9" _ sample_reachable)).
Defined.

(** X13: [get_delivery_log] never raises and never changes the state; it
    returns exactly the recorded attempts of the id, newest [attempt_at]
    first, and after one more send of that id it returns one more entry. *)
Theorem get_delivery_log_newest_first (n : Notification) (w : World) :
  ∃ rows rows',
    get_delivery_log (n_id n) w = (Ok rows, w) ∧
    rows ≡ₚ attempts_of (n_id n) w ∧
    StronglySorted attempt_desc rows ∧
    get_delivery_log (n_id n) (run (send_notification n) w)
      = (Ok rows', run (send_notification n) w) ∧
    length rows' = S (length rows).
Proof.
  eexists _, _. split; [unfold get_delivery_log; run_M; reflexivity|].
  split; [apply merge_sort_Permutation|].
  split; [apply StronglySorted_merge_sort; apply _|].
  split; [unfold get_delivery_log; run_M; reflexivity|].
  rewrite !merge_sort_Permutation.
  fold (attempts_of (n_id n) (run (send_notification n) w)).
  fold (attempts_of (n_id n) w).
  rewrite attempts_of_send, decide_True by done. rewrite length_app. simpl. lia.
Qed.

(* ------------------------------------------------------------------------ *)
(** * Batches and retries *)

Lemma batch_result_union ns : ∀ (acc : gmap string bool),
  batch_result acc ns = batch_result ∅ ns ∪ acc.
Proof.
  induction ns as [|n ns IH]; intros acc.
  - unfold batch_result. simpl. by rewrite (left_id_L ∅ (∪)).
  - change (batch_result acc (n :: ns))
      with (batch_result (<[n_id n := bool_decide (channel_is_valid (n_channel n))]> acc) ns).
    change (batch_result ∅ (n :: ns))
      with (batch_result (<[n_id n := bool_decide (channel_is_valid (n_channel n))]> ∅) ns).
    rewrite (IH (<[_ := _]> acc)), (IH (<[_ := _]> ∅)).
    rewrite <- (assoc_L (∪)). f_equal.
    rewrite insert_union_singleton_l. reflexivity.
Qed.

Lemma run_batch_send ns w : run (batch_send ns) w = run_sends ns w.
Proof. unfold run, batch_send. by rewrite batch_send_from_eq. Qed.

(** X14: a batch of nothing returns the empty mapping and changes nothing,
    and a batch of a concatenation is the batch of the second list run after
    the batch of the first, its entries taking precedence in the returned
    mapping. *)
Theorem batch_send_empty_and_append (ns1 ns2 : list Notification) (w : World) :
  batch_send [] w = (Ok ∅, w) ∧
  ∃ m1 m2,
    batch_send ns1 w = (Ok m1, run (batch_send ns1) w) ∧
    batch_send ns2 (run (batch_send ns1) w)
      = (Ok m2, run (batch_send (ns1 ++ ns2)) w) ∧
    batch_send (ns1 ++ ns2) w = (Ok (m2 ∪ m1), run (batch_send (ns1 ++ ns2)) w).
Proof.
  split; [done|].
  exists (batch_result ∅ ns1), (batch_result ∅ ns2).
  rewrite !run_batch_send. unfold batch_send. rewrite !batch_send_from_eq.
  rewrite run_sends_app. split; [done|]. split; [done|].
  f_equal. f_equal. unfold batch_result at 1. rewrite foldl_app.
  fold (batch_result ∅ ns1). fold (batch_result (batch_result ∅ ns1) ns2).
  apply batch_result_union.
Qed.

(** X15: after a batch, the stored row of an id that occurs in the list is
    the one written by the last element carrying that id, and the rows of
    ids that do not occur are as before. *)
Theorem batch_send_stores_last_per_id (pre post : list Notification)
    (n : Notification) (w : World) :
  n_id n ∉ map n_id post →
  let w1 := run (batch_send pre) w in
  let ok := bool_decide (channel_is_valid (n_channel n)) in
  rows_with_id (n_id n) (run (batch_send (pre ++ n :: post)) w)
    = [notification_row n (if ok then SENT else FAILED)
                        (if ok then Some (clock w1 (S (ticks w1))) else None)] ∧
  ∀ id, id ∉ map n_id (pre ++ n :: post) →
    rows_with_id id (run (batch_send (pre ++ n :: post)) w) = rows_with_id id w.
Proof.
  intros Hnotin w1 ok. subst w1. rewrite !run_batch_send. split.
  - by rewrite rows_with_id_run_sends_last.
  - intros id Hid. by apply rows_with_id_run_sends_notin.
Qed.

Lemma batch_send_stores_last_per_id_witness :
  rows_with_id "n-1"
    (run (batch_send ([sample_email] ++ sample_email_v2 :: [sample_sms])) sample_world)
  = [notification_row sample_email_v2 SENT (Some 1700000000001000)].
Proof.
  refine (proj1 (batch_send_stores_last_per_id [sample_email] [sample_sms]
                   sample_email_v2 sample_world _)).
  refine (proj1 (bool_decide_eq_false _) _). vm_compute. reflexivity.
Defined.






(** X17: in every state the API can reach, [retry_failed] changes nothing:
    it returns 0 when no stored notification is FAILED and raises
    [ValueError] when one is. *)
Theorem retry_failed_reachable_no_effect (w : World) :
  reachable w →
  retry_failed w =
    (if decide (Exists (λ r, row_status r = "failed") (notifications w))
     then Raise ValueError else Ok 0, w).
Proof.
  intros Hreach. rewrite (retry_failed_store_ok w (reachable_store_ok w Hreach)).
  destruct (filter _ (notifications w)) as [|r rows] eqn:Hf.
  - rewrite decide_False; [done|]. intros Hex. apply Exists_exists in Hex as (r & Hr & Hst).
    assert (Hin : r ∈ filter (λ r, row_status r = "failed") (notifications w))
      by (by apply list_elem_of_filter).
    rewrite Hf in Hin. by apply elem_of_nil in Hin.
  - rewrite decide_True; [done|]. apply Exists_exists. exists r.
    assert (Hin : r ∈ filter (λ r, row_status r = "failed") (notifications w))
      by (rewrite Hf; set_solver).
    apply list_elem_of_filter in Hin as [? ?]. done.
Qed.

Lemma retry_failed_reachable_no_effect_witness :
  retry_failed (run_op (OpSend sample_email) sample_world)
  = (Ok 0, run_op (OpSend sample_email) sample_world).
Proof.
  exact (retry_failed_reachable_no_effect _ sample_reachable).
Defined.

(* ------------------------------------------------------------------------ *)
(** * More on [notification_stats] *)

Lemma rows_in_scope_eq channel (rows : list NotificationRow) :
  (if truthy channel then filter (λ r, Some (row_channel r) = channel) rows else rows)
  = rows_in_scope channel rows.
Proof.
  destruct channel as [c|]; simpl; [|done].
  case_bool_decide as Hc; case_decide; try done.
  apply list_filter_iff. intros d. split; congruence.
Qed.

Lemma group_count_lookup {A} (key : A → string) (rows : list A) (k : string) :
  group_count key rows !! k =
    if decide (count_key key k rows = 0%nat) then None
    else Some (Z.of_nat (count_key key k rows)).
Proof.
  unfold count_key. induction rows as [|r rows IH]; [done|].
  unfold group_count in *. simpl.
  destruct (decide (key r = k)) as [Heq|Hne].
  - rewrite Heq, lookup_insert_eq, IH. rewrite filter_cons_True by done. simpl.
    f_equal. case_decide as Hc; unfold default, from_option, id; lia.
  - rewrite lookup_insert_ne by done. rewrite IH. by rewrite filter_cons_False.
Qed.

Lemma notification_stats_eq channel w :
  ∃ st, notification_stats channel w = (Ok st, w) ∧
    total_notifications st = count_rows (rows_in_scope channel (notifications w)) ∧
    by_status st = group_count row_status (rows_in_scope channel (notifications w)) ∧
    by_channel st = group_count row_channel (rows_in_scope channel (notifications w)) ∧
    total_delivery_attempts st = count_rows (attempts_in_scope channel (delivery_log w)) ∧
    successful_deliveries st
      = count_rows (filter (λ d, dl_success d = 1)
                           (attempts_in_scope channel (delivery_log w))) ∧
    delivery_success_rate_pct st
      = (if decide (total_delivery_attempts st = 0) then S754_zero false
         else success_rate_pct (successful_deliveries st) (total_delivery_attempts st)).
Proof.
  unfold notification_stats. run_M.
  rewrite attempts_in_scope_eq, successful_in_scope_eq, rows_in_scope_eq.
  set (total := count_rows (attempts_in_scope channel (delivery_log w))).
  destruct (decide (total ≠ 0)) as [Hnz|Hz].
  - unfold int_truediv. rewrite decide_False by done.
    eexists. split; [reflexivity|]. simpl. rewrite decide_False by done. done.
  - eexists. split; [reflexivity|]. simpl.
    rewrite decide_True by (by destruct (decide (total = 0)); [|exfalso; auto]).
    done.
Qed.

(** X18: the counts [notification_stats] reports are the counts of the
    stored notifications in scope (those of the filter channel when a
    non-empty one is given, all of them otherwise): [total_notifications] is
    their number, and [by_status] and [by_channel] map each status or channel
    that occurs to its number of notifications and have no entry for one
    that does not occur. *)
Theorem notification_stats_counts (channel : option string) (w : World) :
  ∃ st, notification_stats channel w = (Ok st, w) ∧
    let rows := rows_in_scope channel (notifications w) in
    total_notifications st = Z.of_nat (length rows) ∧
    (∀ s, by_status st !! s =
            if decide (count_key row_status s rows = 0%nat) then None
            else Some (Z.of_nat (count_key row_status s rows))) ∧
    (∀ c, by_channel st !! c =
            if decide (count_key row_channel c rows = 0%nat) then None
            else Some (Z.of_nat (count_key row_channel c rows))).
Proof.
  destruct (notification_stats_eq channel w) as (st & Hst & Ht & Hs & Hc & _).
  exists st. split; [done|]. simpl. split; [done|].
  split; intros k; [rewrite Hs|rewrite Hc]; apply group_count_lookup.
Qed.

Lemma div_eucl_pair a b : Z.div_eucl a b = (a / b, a mod b).
Proof. unfold Z.div, Z.modulo. by destruct (Z.div_eucl a b). Qed.

(** [n / n] is 1.0 for every positive [int]. *)
Lemma SFdiv_self p :
  SFdiv prec emax (S754_finite false p 0) (S754_finite false p 0)
  = S754_finite false 4503599627370496 (-52).
Proof.
  unfold SFdiv, SFdiv_core_binary.
  rewrite !Z.add_0_r, (Z.sub_diag (Zdigits2 (Z.pos p))).
  change (Z.min (fexp prec emax 0) (0 - 0)) with (-53).
  change (0 - 0 - -53) with 53.
  cbv beta iota zeta. rewrite div_eucl_pair.
  rewrite Z.shiftl_mul_pow2 by lia.
  rewrite (Z.mul_comm (Z.pos p)). rewrite Z.div_mul, Z.mod_mul by lia.
  unfold new_location.
  destruct (Z.even (Z.pos p)); vm_compute; reflexivity.
Qed.

Lemma success_rate_pct_all p :
  success_rate_pct (Z.pos p) (Z.pos p) = S754_finite false 7036874417766400 (-46).
Proof.
  unfold success_rate_pct. cbn [int_exact]. rewrite SFdiv_self.
  vm_compute. reflexivity.
Qed.

Lemma success_rate_pct_none p : success_rate_pct 0 (Z.pos p) = S754_zero false.
Proof. reflexivity. Qed.

(** X19: the number of successful deliveries [notification_stats] reports
    never exceeds the number of attempts; when there are attempts and none
    succeeded the rate is exactly 0.0, and when all of them succeeded it is
    exactly 100.0. *)
Theorem success_rate_extremes (channel : option string) (w : World) :
  ∃ st, notification_stats channel w = (Ok st, w) ∧
    0 ≤ successful_deliveries st ≤ total_delivery_attempts st ∧
    (total_delivery_attempts st ≠ 0 → successful_deliveries st = 0 →
     delivery_success_rate_pct st = S754_zero false) ∧
    (total_delivery_attempts st ≠ 0 →
     successful_deliveries st = total_delivery_attempts st →
     delivery_success_rate_pct st = S754_finite false 7036874417766400 (-46)).
Proof.
  destruct (notification_stats_eq channel w)
    as (st & Hst & _ & _ & _ & Ht & Hs & Hrate).
  exists st. split; [done|]. split.
  - rewrite Ht, Hs. unfold count_rows. split; [apply Nat2Z.is_nonneg|].
    apply Nat2Z.inj_le, length_filter.
  - rewrite Hrate. split; intros Hnz Heq; rewrite decide_False by done.
    + rewrite Heq. destruct (total_delivery_attempts st) as [|p|p] eqn:Hp; [done| |].
      * apply success_rate_pct_none.
      * unfold count_rows in Ht. destruct (length _); discriminate.
    + rewrite Heq. destruct (total_delivery_attempts st) as [|p|p] eqn:Hp; [done| |].
      * apply success_rate_pct_all.
      * unfold count_rows in Ht. destruct (length _); discriminate.
Qed.

Lemma last_filter_elem {A} (P : A → Prop) `{∀ x, Decision (P x)} (l : list A) x :
  last (filter P l) = Some x → P x ∧ x ∈ l.
Proof. intros Hl. apply last_Some_elem_of in Hl. by apply list_elem_of_filter in Hl. Qed.

(** X20: in every state the API can reach, [notification_stats] never
    reports more notifications than delivery attempts, with or without a
    channel filter: every stored notification has an attempt on its own
    channel. *)
Theorem attempts_cover_notifications (channel : option string) (w : World) :
  reachable w →
  ∃ st, notification_stats channel w = (Ok st, w) ∧
        total_notifications st ≤ total_delivery_attempts st.
Proof.
  intros Hreach.
  destruct (notification_stats_eq channel w) as (st & Hst & Hn & _ & _ & Ht & _).
  exists st. split; [done|]. rewrite Hn, Ht. unfold count_rows.
  destruct (reachable_store_ok w Hreach) as [Hnd _].
  destruct (reachable_tables_ok w Hreach) as (_ & _ & Hrows & _).
  rewrite Forall_forall in Hrows.
  set (rows := rows_in_scope channel (notifications w)).
  set (log := attempts_in_scope channel (delivery_log w)).
  assert (Hsub : rows `sublist_of` notifications w).
  { unfold rows, rows_in_scope. destruct channel as [c|]; [|done].
    case_decide; [done|apply sublist_filter]. }
  assert (Hnd' : NoDup (map row_id rows)).
  { eapply sublist_NoDup; [exact Hnd|]. by apply fmap_sublist. }
  assert (Hcov : ∀ i, i ∈ map row_id rows → i ∈ map dl_notification_id log).
  { intros i Hi. apply list_elem_of_fmap in Hi as (r & -> & Hr).
    assert (Hr' : r ∈ notifications w) by (by eapply elem_of_sublist).
    destruct (Hrows r Hr') as (d & Hlast & Hch & _).
    apply last_filter_elem in Hlast as [Hid Hd].
    apply list_elem_of_fmap. exists d. split; [done|].
    unfold log, attempts_in_scope. unfold rows, rows_in_scope in Hr.
    destruct channel as [c|]; [|done]. case_decide; [done|].
    apply list_elem_of_filter in Hr as [Hrc _].
    apply list_elem_of_filter. split; [congruence|done]. }
  pose proof (submseteq_length _ _ (NoDup_submseteq _ _ Hnd' Hcov)) as Hlen.
  rewrite !length_map in Hlen. lia.
Qed.

Lemma attempts_cover_notifications_witness :
  ∃ st, notification_stats None (run_op (OpSend sample_email) sample_world)
        = (Ok st, run_op (OpSend sample_email) sample_world) ∧
        total_notifications st ≤ total_delivery_attempts st.
Proof. exact (attempts_cover_notifications None _ sample_reachable). Defined.

(* ------------------------------------------------------------------------ *)
(** * Templates *)

#[global] Instance name_asc_trans : Transitive name_asc.
Proof. unfold name_asc. intros a b c ??. by etrans. Qed.

#[global] Instance name_asc_total : Total name_asc.
Proof. unfold name_asc. intros a b. apply (total String.le). Qed.

Lemma simple_render_total template context :
  ∃ out, _simple_render template context = Ok out.
Proof.
  destruct (re_sub_from_scans context (String.length template) template)
    as (segs & outs & _ & Hout & _); [done|].
  by exists (join outs).
Qed.

Lemma save_template_eq name channel subject body h :
  save_template name channel subject body h =
    (Ok tt,
     mkHub (mkWorld (notifications (hub_world h)) (delivery_log (hub_world h))
                    (dl_seq (hub_world h)) (clock (hub_world h))
                    (S (ticks (hub_world h))))
           (insert_or_replace_template
              (mkTemplate name channel subject body
                          (clock (hub_world h) (ticks (hub_world h))))
              (templates h))).
Proof. reflexivity. Qed.

Lemma template_render_eq name context h :
  template_render name context h =
    match head (templates_named name h) with
    | None => (Raise KeyError, h)
    | Some tmpl =>
      match Template_render tmpl context with
      | Ok (subject, body) => (Ok (mkRendered subject body (tpl_channel tmpl)), h)
      | Raise e => (Raise e, h)
      end
    end.
Proof.
  unfold template_render, templates_named, select_template_by_name, lift_world,
    raise_hub, mbind, MH_bind, mret, MH_ret, init_db.
  simpl. destruct h as [w tbl]. simpl.
  destruct (head _) as [tmpl|]; [|done].
  by destruct (Template_render tmpl context) as [[subject body]|e].
Qed.

Lemma templates_named_insert_same t tbl :
  filter (λ t', tpl_name t' = tpl_name t) (insert_or_replace_template t tbl) = [t].
Proof.
  unfold insert_or_replace_template. rewrite filter_app.
  rewrite (filter_cons_True _ t) by done. rewrite filter_nil.
  replace (filter (λ t', tpl_name t' = tpl_name t)
             (filter (λ t', tpl_name t' ≠ tpl_name t) tbl)) with (@nil TemplateRow); [done|].
  symmetry. apply (proj1 (last_None _)).
  destruct (last _) as [x|] eqn:Hl; [|done].
  apply last_Some_elem_of, list_elem_of_filter in Hl as [Heq Hx].
  apply list_elem_of_filter in Hx as [Hne _]. done.
Qed.

Lemma templates_named_insert_other t tbl name :
  name ≠ tpl_name t →
  filter (λ t', tpl_name t' = name) (insert_or_replace_template t tbl)
  = filter (λ t', tpl_name t' = name) tbl.
Proof.
  intros Hne. unfold insert_or_replace_template. rewrite filter_app.
  rewrite (filter_cons_False _ t) by (simpl; congruence).
  rewrite filter_nil, app_nil_r, list_filter_filter.
  apply list_filter_iff. intros x. split; [tauto|]. intros ->. done.
Qed.

Lemma insert_or_replace_template_NoDup t tbl :
  NoDup (map tpl_name tbl) → NoDup (map tpl_name (insert_or_replace_template t tbl)).
Proof.
  intros Hnd. unfold insert_or_replace_template. rewrite map_app. simpl.
  apply NoDup_app. split; [|split].
  - eapply sublist_NoDup; [exact Hnd|]. apply fmap_sublist, sublist_filter.
  - intros i Hi Hi'. apply list_elem_of_fmap in Hi as (y & -> & Hy).
    apply list_elem_of_filter in Hy as [Hy _]. set_solver.
  - apply NoDup_singleton.
Qed.

(** X21: a template that was just saved renders: [template_render] on its
    name returns the saved subject and body, each rendered against the
    context, together with the saved channel, and does not change the
    database. *)
Theorem save_then_render (name channel subject body : string) (context : value)
    (h : Hub) :
  let h' := (save_template name channel subject body h).2 in
  ∃ s b,
    _simple_render subject context = Ok s ∧
    _simple_render body context = Ok b ∧
    template_render name context h' = (Ok (mkRendered s b channel), h').
Proof.
  intros h'. destruct (simple_render_total subject context) as [s Hs].
  destruct (simple_render_total body context) as [b Hb].
  exists s, b. split; [done|]. split; [done|].
  rewrite template_render_eq. subst h'. rewrite save_template_eq.
  unfold templates_named. cbn [snd templates].
  rewrite (templates_named_insert_same (mkTemplate name channel subject body _)).
  cbn [head]. unfold Template_render. cbn [tpl_subject_template tpl_body_template].
  by rewrite Hs, Hb.
Qed.

(** X22: [template_render] raises [KeyError] exactly when no template of
    that name is stored, raises nothing else, returns a result otherwise,
    and never changes the database. *)
Theorem template_render_raises_iff_missing (name : string) (context : value) (h : Hub) :
  (template_render name context h).2 = h ∧
  (templates_named name h = [] → (template_render name context h).1 = Raise KeyError) ∧
  (templates_named name h ≠ [] → ∃ r, (template_render name context h).1 = Ok r) ∧
  (∀ e, (template_render name context h).1 = Raise e →
        e = KeyError ∧ templates_named name h = []).
Proof.
  rewrite template_render_eq.
  destruct (templates_named name h) as [|tmpl rest] eqn:Hn; cbn [head].
  - split; [done|]. split; [done|]. split; [done|]. by intros e [= <-].
  - unfold Template_render.
    destruct (simple_render_total (tpl_subject_template tmpl) context) as [s ->].
    destruct (simple_render_total (tpl_body_template tmpl) context) as [b ->].
    simpl. split; [done|]. split; [done|]. split; [eauto|]. intros e. discriminate.
Qed.

(** X23: [save_template] is an upsert: afterwards exactly one template has
    the name, with the channel, subject and body given and the time of the
    call; templates of other names, the notifications and the delivery log
    are untouched, and names stay unique. *)
Theorem save_template_upserts (name channel subject body : string) (h : Hub) :
  let h' := (save_template name channel subject body h).2 in
  templates_named name h'
    = [mkTemplate name channel subject body
                  (clock (hub_world h) (ticks (hub_world h)))] ∧
  (∀ other, other ≠ name → templates_named other h' = templates_named other h) ∧
  notifications (hub_world h') = notifications (hub_world h) ∧
  delivery_log (hub_world h') = delivery_log (hub_world h) ∧
  (NoDup (map tpl_name (templates h)) → NoDup (map tpl_name (templates h'))).
Proof.
  intros h'. subst h'. rewrite save_template_eq. unfold templates_named.
  cbn [snd templates hub_world notifications delivery_log].
  split; [apply (templates_named_insert_same (mkTemplate name channel subject body _))|].
  split; [intros other Hne; by apply templates_named_insert_other|].
  split; [done|]. split; [done|]. apply insert_or_replace_template_NoDup.
Qed.

Lemma hub_reachable_names_unique h :
  hub_reachable h → NoDup (map tpl_name (templates h)).
Proof.
  induction 1 as [clk|name channel subject body h _ IH|o h _ IH].
  - constructor.
  - rewrite save_template_eq. by apply insert_or_replace_template_NoDup.
  - exact IH.
Qed.

(** X24: [list_templates] never raises and never changes the database; it
    returns every stored template once, in ascending order of name, and in a
    database built through the API no two of them share a name. *)
Theorem list_templates_sorted_by_name (h : Hub) :
  ∃ rows,
    list_templates h = (Ok rows, h) ∧
    rows ≡ₚ templates h ∧
    StronglySorted name_asc rows ∧
    (hub_reachable h → NoDup (map tpl_name rows)).
Proof.
  exists (merge_sort name_asc (templates h)).
  split; [by destruct h|]. split; [apply merge_sort_Permutation|].
  split; [apply StronglySorted_merge_sort; apply _|].
  intros Hreach. rewrite merge_sort_Permutation. by apply hub_reachable_names_unique.
Qed.

(* ------------------------------------------------------------------------ *)
(** * More on rendering *)

Lemma outputs_without_entries context segs outs :
  (∀ part rest v, ¬ walks context (part :: rest) v) →
  Forall2 (segment_output context) segs outs →
  outs = map segment_text segs.
Proof.
  intros Hno. induction 1 as [|seg out segs outs Hout _ IH]; [done|].
  simpl. rewrite IH. f_equal. destruct seg as [c|inner]; simpl in *; [done|].
  destruct Hout as [(v & Hw & _)|(_ & -> & _)]; [|done].
  destruct (split_dot (strip inner)) as [|part rest] eqn:Hs.
  - by destruct (split_dot_spec (strip inner)) as (_ & _ & ?).
  - by destruct (Hno part rest v).
Qed.

(** X25: against a context without entries, an empty mapping or an object
    without attributes, every template renders to itself. *)
Theorem render_empty_context_is_identity (template text : string) :
  _simple_render template (VDict text []) = Ok template ∧
  _simple_render template (VObj text []) = Ok template.
Proof.
  split.
  - destruct (re_sub_from_scans (VDict text []) (String.length template) template)
      as (segs & outs & Hscan & Hout & Hall); [done|].
    unfold _simple_render, re_sub. rewrite Hout. f_equal.
    rewrite (outputs_without_entries (VDict text []) segs outs);
      [by apply scans_text| |done].
    intros part rest v Hw. inversion Hw. discriminate.
  - destruct (re_sub_from_scans (VObj text []) (String.length template) template)
      as (segs & outs & Hscan & Hout & Hall); [done|].
    unfold _simple_render, re_sub. rewrite Hout. f_equal.
    rewrite (outputs_without_entries (VObj text []) segs outs);
      [by apply scans_text| |done].
    intros part rest v Hw. inversion Hw. discriminate.
Qed.

Lemma match_here_no_brace c s : c ≠ "{"%char → match_here (String c s) = None.
Proof.
  intros Hc. unfold match_here.
  destruct (after2 "{" "{" (String c s)) as [u|] eqn:Ha; [|done].
  apply after2_Some in Ha. congruence.
Qed.

(** Text without an opening brace is copied, whatever follows it. *)
Lemma re_sub_from_copy repl pre : ∀ fuel rest,
  no_open_brace pre → (String.length pre ≤ fuel)%nat →
  re_sub_from fuel repl (pre +:+ rest) =
    match re_sub_from (fuel - String.length pre) repl rest with
    | Ok out => Ok (pre +:+ out)
    | Raise e => Raise e
    end.
Proof.
  induction pre as [|c pre IH]; intros fuel rest Hnb Hlen.
  - change (EmptyString +:+ rest) with rest. rewrite Nat.sub_0_r.
    by destruct (re_sub_from fuel repl rest).
  - destruct Hnb as [Hc Hnb]. simpl in Hlen.
    destruct fuel as [|fuel]; [lia|].
    change (String c pre +:+ rest) with (String c (pre +:+ rest)).
    cbn [re_sub_from]. rewrite match_here_no_brace by done.
    rewrite IH by (done || lia). cbn [String.length Nat.sub].
    by destruct (re_sub_from _ repl rest).
Qed.

Lemma re_sub_from_plain repl s fuel :
  no_open_brace s → (String.length s ≤ fuel)%nat → re_sub_from fuel repl s = Ok s.
Proof.
  intros Hnb Hlen.
  assert (Hs : s = s +:+ EmptyString).
  { clear. induction s as [|c s IH]; [done|].
    change (String c s = String c (s +:+ EmptyString)). by rewrite <- IH. }
  rewrite Hs at 1. rewrite re_sub_from_copy by done.
  destruct (fuel - String.length s)%nat; simpl; by rewrite <- Hs.
Qed.

(** X26: a template without an opening brace renders to itself against
    every context. *)
Theorem render_without_brace_is_identity (template : string) (context : value) :
  no_open_brace template → _simple_render template context = Ok template.
Proof. intros Hnb. by apply re_sub_from_plain. Qed.

Lemma render_without_brace_is_identity_witness :
  _simple_render "Alert: disk full"
    (VDict "{...}" [("name", VObj "Bob" [])]) = Ok "Alert: disk full".
Proof.
  refine (render_without_brace_is_identity _ _ _).
  vm_compute. repeat split; discriminate.
Defined.

Lemma find_close_whole inner post :
  inner ≠ EmptyString → no_close_brace inner →
  find_close (inner +:+ "}}" +:+ post) = Some (inner, post).
Proof.
  induction inner as [|c inner IH]; intros Hne Hnc; [done|].
  destruct Hnc as (Hc & Hnl & Hnc).
  change (String c inner +:+ "}}" +:+ post) with (String c (inner +:+ "}}" +:+ post)).
  cbn [find_close]. rewrite Hnl.
  destruct inner as [|c' inner].
  - change (EmptyString +:+ "}}" +:+ post) with (String "}" (String "}" post)).
    by rewrite (proj2 (after2_Some "}" "}" _ post) eq_refl).
  - destruct (after2 "}" "}" (String c' inner +:+ "}}" +:+ post)) as [x|] eqn:Ha.
    + apply after2_Some in Ha.
      change (String c' inner +:+ "}}" +:+ post)
        with (String c' (inner +:+ "}}" +:+ post)) in Ha.
      destruct Hnc as (Hc' & _). congruence.
    + by rewrite IH.
Qed.

Lemma re_sub_from_match repl fuel s m rest :
  match_here s = Some (m, rest) →
  re_sub_from (S fuel) repl s =
    match repl m with
    | Raise e => Raise e
    | Ok t =>
      match re_sub_from fuel repl rest with
      | Raise e => Raise e
      | Ok out => Ok (t +:+ out)
      end
    end.
Proof.
  intros Hm. destruct s as [|c s]; [discriminate|].
  cbn [re_sub_from]. by rewrite Hm.
Qed.

Lemma match_here_whole inner post :
  inner ≠ EmptyString → no_close_brace inner →
  match_here ("{{" +:+ inner +:+ "}}" +:+ post)
  = Some (mkMatch ("{{" +:+ inner +:+ "}}") inner, post).
Proof.
  intros Hne Hnc. unfold match_here.
  rewrite (proj2 (after2_Some "{" "{" ("{{" +:+ inner +:+ "}}" +:+ post)
                   (inner +:+ "}}" +:+ post)) eq_refl).
  by rewrite find_close_whole.
Qed.

(** One placeholder between two stretches of text without braces. *)
Lemma render_one_placeholder pre inner post context :
  no_open_brace pre → no_open_brace post →
  inner ≠ EmptyString → no_close_brace inner →
  _simple_render (pre +:+ "{{" +:+ inner +:+ "}}" +:+ post) context =
    Ok (pre +:+
        match resolve (split_dot (strip inner)) context with
        | Ok v => py_str v
        | Raise _ => "{{" +:+ inner +:+ "}}"
        end +:+ post).
Proof.
  intros Hpre Hpost Hne Hnc. unfold _simple_render, re_sub.
  rewrite re_sub_from_copy; [|done|rewrite length_append; lia].
  rewrite length_append, Nat.add_comm, Nat.add_sub.
  change (String.length ("{{" +:+ inner +:+ "}}" +:+ post))
    with (S (S (String.length (inner +:+ "}}" +:+ post)))).
  rewrite (re_sub_from_match _ _ _ _ _ (match_here_whole inner post Hne Hnc)).
  rewrite re_sub_from_plain; [|done|rewrite !length_append; simpl; lia].
  unfold replacer. cbn [group0 group1].
  destruct (resolve (split_dot (strip inner)) context) as [v|e] eqn:Hr; [done|].
  by destruct (resolve_raises _ _ _ Hr) as [-> | ->].
Qed.

Lemma lstrip_id s : ¬ starts_with_space s → lstrip s = s.
Proof.
  destruct s as [|c s]; [done|]. simpl. intros Hc.
  destruct (is_space c); [by destruct Hc|done].
Qed.

Lemma rstrip_id s : ¬ ends_with_space s → rstrip s = s.
Proof.
  induction s as [|c s IH]; [done|]. intros He. cbn [rstrip].
  destruct s as [|c' s].
  - simpl in *. destruct (is_space c); [by destruct He|done].
  - rewrite IH by done. done.
Qed.

Lemma split_dot_no_dot s : no_dot s → split_dot s = [s].
Proof.
  induction s as [|c s IH]; [done|]. intros [Hc Hs]. cbn [split_dot].
  destruct (Ascii.eqb_spec c ".") as [->|_]; [done|]. by rewrite IH.
Qed.

(** X27: a placeholder [{{key}}] for a key without dots, braces, newline or
    whitespace at its ends, standing between two stretches of text without
    braces, is replaced by [str] of the context's entry for that key, and is
    left as written when the context has no such entry; the text around it
    is copied. *)
Theorem render_key_between_text (pre key post text : string)
    (items : list (string * value)) :
  no_open_brace pre → no_open_brace post → plain_key key →
  _simple_render (pre +:+ "{{" +:+ key +:+ "}}" +:+ post) (VDict text items) =
    Ok (pre +:+
        match assoc key items with
        | Some v => py_str v
        | None => "{{" +:+ key +:+ "}}"
        end +:+ post).
Proof.
  intros Hpre Hpost (Hne & Hnc & Hnd & Hs & He).
  rewrite render_one_placeholder by done.
  unfold strip. rewrite (lstrip_id key Hs), (rstrip_id key He), split_dot_no_dot by done.
  cbn [resolve]. unfold getitem. by destruct (assoc key items).
Qed.

Lemma render_key_between_text_witness :
  _simple_render ("Hello " +:+ "{{" +:+ "name" +:+ "}}" +:+ "!")
    (VDict "{...}" [("name", VObj "World" [])]) = Ok "Hello World!".
Proof.
  refine (render_key_between_text "Hello " "name" "!" "{...}"
            [("name", VObj "World" [])] _ _ _).
  - vm_compute. repeat split; discriminate.
  - vm_compute. repeat split; discriminate.
  - unfold plain_key. vm_compute. repeat split; try discriminate; auto.
Defined.

Lemma lstrip_app_space l s : all_space l → lstrip (l +:+ s) = lstrip s.
Proof.
  induction l as [|c l IH]; [done|]. intros [Hc Hl].
  change (String c l +:+ s) with (String c (l +:+ s)). cbn [lstrip].
  rewrite Hc. auto.
Qed.

Lemma rstrip_all_space r : all_space r → rstrip r = EmptyString.
Proof.
  induction r as [|c r IH]; [done|]. intros [Hc Hr]. cbn [rstrip].
  by rewrite IH, Hc.
Qed.

Lemma rstrip_app_space s r : all_space r → rstrip (s +:+ r) = rstrip s.
Proof.
  intros Hr. induction s as [|c s IH].
  - change (EmptyString +:+ r) with r. by rewrite rstrip_all_space.
  - change (String c s +:+ r) with (String c (s +:+ r)). cbn [rstrip].
    by rewrite IH.
Qed.

Lemma strip_padded l path r :
  all_space l → all_space r →
  ¬ starts_with_space path → ¬ ends_with_space path →
  strip (l +:+ path +:+ r) = path.
Proof.
  intros Hl Hr Hs He. unfold strip.
  rewrite lstrip_app_space by done.
  destruct path as [|c path].
  - change (EmptyString +:+ r) with r.
    assert (Hlr : ∀ r, all_space r → lstrip r = EmptyString).
    { clear. induction r as [|c r IH]; [done|]. intros [Hc Hr]. simpl. rewrite Hc. auto. }
    by rewrite Hlr.
  - rewrite lstrip_id.
    + by rewrite rstrip_app_space, rstrip_id.
    + exact Hs.
Qed.

Lemma split_dot_app_dot k s :
  no_dot k → split_dot (k +:+ "." +:+ s) = k :: split_dot s.
Proof.
  induction k as [|c k IH]; [done|]. intros [Hc Hk].
  change (String c k +:+ "." +:+ s) with (String c (k +:+ "." +:+ s)).
  cbn [split_dot]. destruct (Ascii.eqb_spec c ".") as [->|_]; [done|].
  by rewrite IH.
Qed.

(** Splitting on dots undoes joining with dots. *)
Lemma split_dot_join_dot keys :
  keys ≠ [] → Forall no_dot keys → split_dot (join_dot keys) = keys.
Proof.
  induction keys as [|k keys IH]; [done|]. intros _ Hall.
  apply Forall_cons in Hall as [Hk Hall].
  destruct keys as [|k' keys].
  - by apply split_dot_no_dot.
  - change (join_dot (k :: k' :: keys)) with (k +:+ "." +:+ join_dot (k' :: keys)).
    rewrite split_dot_app_dot by done. by rewrite IH.
Qed.

(** X28: a placeholder holding a dotted path, possibly padded with
    whitespace, is replaced by [str] of the value reached by walking the
    context along the keys of the path, and is left as written when the
    walk reaches nothing. *)
Theorem render_dotted_path (pre post l r : string) (keys : list string)
    (context : value) :
  no_open_brace pre → no_open_brace post →
  all_space l → all_space r →
  Forall no_dot keys → join_dot keys ≠ EmptyString →
  ¬ starts_with_space (join_dot keys) → ¬ ends_with_space (join_dot keys) →
  no_close_brace (l +:+ join_dot keys +:+ r) →
  let template := pre +:+ "{{" +:+ (l +:+ join_dot keys +:+ r) +:+ "}}" +:+ post in
  (∀ v, walks context keys v →
        _simple_render template context = Ok (pre +:+ py_str v +:+ post)) ∧
  ((∀ v, ¬ walks context keys v) →
   _simple_render template context = Ok template).
Proof.
  intros Hpre Hpost Hl Hr Hnd Hne Hs He Hnc template.
  assert (Hkeys : keys ≠ []) by (by intros ->).
  assert (Hinner : l +:+ join_dot keys +:+ r ≠ EmptyString).
  { destruct l; [|done]. by destruct (join_dot keys). }
  assert (Hrender := render_one_placeholder pre _ post context Hpre Hpost Hinner Hnc).
  rewrite strip_padded, split_dot_join_dot in Hrender by done.
  split.
  - intros v Hw. apply resolve_walks in Hw. subst template. by rewrite Hrender, Hw.
  - intros Hno. subst template. rewrite Hrender.
    destruct (resolve keys context) as [v|e] eqn:Hres; [|by rewrite !append_assoc].
    apply resolve_walks in Hres. by destruct (Hno v).
Qed.

Lemma render_dotted_path_witness :
  _simple_render ("Dear " +:+ "{{" +:+ (" " +:+ "user.name" +:+ " ") +:+ "}}" +:+ ",")
    (VDict "{...}" [("user", VDict "{...}" [("name", VObj "Alice" [])])])
  = Ok "Dear Alice,".
Proof.
  refine (proj1 (render_dotted_path "Dear " "," " " " " ["user"; "name"]
                   (VDict "{...}" [("user", VDict "{...}" [("name", VObj "Alice" [])])])
                   _ _ _ _ _ _ _ _ _) (VObj "Alice" []) _).
  - vm_compute. repeat split; discriminate.
  - vm_compute. repeat split; discriminate.
  - vm_compute. auto.
  - vm_compute. auto.
  - repeat constructor; discriminate.
  - vm_compute. discriminate.
  - vm_compute. discriminate.
  - vm_compute. discriminate.
  - vm_compute. repeat split; discriminate.
  - eapply walks_key; [reflexivity|]. eapply walks_key; [reflexivity|]. apply walks_here.
Defined.
